(** * Counter backend of Protos-Eschaton: a shallow embedding

    The repository holds two Google Apps Script programs that keep three
    counters (likes, dislikes, infos) per slug in a spreadsheet tab:

    - [src/apps.js], the documented version, which reads and bumps through GET
      requests and keeps POST for compatibility (module [Apps]);
    - [src/unnamed/part_000], a shorter version of the same script
      (module [Part000]), whose functions are written against the global
      bindings they run with, since one of them reads an identifier the file
      does not declare.

    The embedding follows the scripts function by function.  The spreadsheet
    is an explicit state threaded through a small state-and-exception monad;
    JavaScript values keep their dynamic types where the scripts depend on
    them ([||], [===], [+], [String], [Number]).

    Modelling decisions, all about the platform and none about the scripts:

    - numbers are the integers plus [NaN], with the arithmetic and the
      numerals of doubles: a sum beyond 2^53 is rounded to the nearest double
      ([round53]) and [String] follows Number::toString ([string_of_double]);
      fractions, infinities and the negative zero are outside the model;
    - a cell holds a boolean, a number or a string, the blank cell reading as
      the empty string, as [getValue] reports it (dates are left out), and a
      cell keeps the value written to it;
    - only columns A to D of the tab are represented, the only ones the
      scripts touch;
    - [JSON.parse] and [JSON.stringify] are not re-implemented: a request body
      is given by what [JSON.parse] makes of it, a response by the object that
      is serialised;
    - [Logger.log] and cell formatting have no effect on the state. *)

From Stdlib Require Import ZArith String Ascii DecimalString Lia.
From stdpp Require Import base option list strings gmap.

Local Open Scope string_scope.
Local Open Scope Z_scope.
Local Open Scope list_scope.

(** ** JavaScript values *)

Inductive number := Int (z : Z) | NaN.

(** What a cell can hold, and what a slug can be. *)
Inductive scalar := SBool (b : bool) | SNum (n : number) | SStr (s : string).

(** A scalar, or one of the two empty values. *)
Inductive value := Undefined | Null | Prim (p : scalar).

#[global] Instance number_eq_dec : EqDecision number.
Proof. solve_decision. Defined.
#[global] Instance scalar_eq_dec : EqDecision scalar.
Proof. solve_decision. Defined.
#[global] Instance value_eq_dec : EqDecision value.
Proof. solve_decision. Defined.

Definition zero : scalar := SNum (Int 0).

(** ToBoolean. *)
Definition truthy (p : scalar) : bool :=
  match p with
  | SBool b => b
  | SNum (Int z) => negb (Z.eqb z 0)
  | SNum NaN => false
  | SStr s => negb (String.eqb s "")
  end.

Definition truthy_value (v : value) : bool :=
  match v with
  | Prim p => truthy p
  | Undefined | Null => false
  end.

(** [a || b] on values. *)
Definition js_or (a b : value) : value := if truthy_value a then a else b.

(** [a || d] where the last alternative [d] is a scalar: so is the result. *)
Definition or_else (a : value) (d : scalar) : scalar :=
  match a with
  | Prim p => if truthy p then p else d
  | Undefined | Null => d
  end.

(** [v || 0] on a cell value. *)
Definition or0 (p : scalar) : scalar := or_else (Prim p) zero.

(** The integer a sum of two doubles is rounded to: every integer up to 2^53
    in absolute value is a double; beyond, a double keeps 53 significant
    bits, and the sum goes to the nearest one, to the one with an even
    significand when two are as near.  (Adding one to a double never leaves
    the finite doubles.) *)
Definition round53 (z : Z) : Z :=
  let a := Z.abs z in
  if a <=? 2 ^ 53 then z
  else
    let e := Z.log2 a - 52 in
    let q := Z.shiftr a e in
    let r := a - Z.shiftl q e in
    let half := 2 ^ (e - 1) in
    let q' := if r <? half then q
              else if half <? r then q + 1
              else if Z.even q then q else q + 1 in
    Z.sgn z * Z.shiftl q' e.

(** The decimal digits of a natural number. *)
Definition digits (a : Z) : string := NilZero.string_of_uint (N.to_uint (Z.to_N a)).

(** [n] zeros. *)
Definition zeros (n : Z) : string := String.concat "" (replicate (Z.to_nat n) "0").

(** Number::toString on a double beyond 2^53, step 5: the significand [s]
    of [k] digits for which [s * 10^(n - k)] is read back as [a], if there is
    one; of two, the nearer to [a], and the even one when both are as near. *)
Definition significand (a n k : Z) : option Z :=
  let p := 10 ^ (n - k) in
  let lo := a / p in
  let hi := lo + 1 in
  let ok s := (10 ^ (k - 1) <=? s) && (s <? 10 ^ k) && (round53 (s * p) =? a) in
  match ok lo, ok hi with
  | true, true =>
      if a - lo * p <? hi * p - a then Some lo
      else if hi * p - a <? a - lo * p then Some hi
      else if Z.even lo then Some lo else Some hi
  | true, false => Some lo
  | false, true => Some hi
  | false, false => None
  end.

(** The least [k], from [k] on, with such a significand. *)
Fixpoint shortest (fuel : nat) (a n k : Z) : option (Z * Z) :=
  match fuel with
  | O => None
  | S fuel' =>
      if n <? k then None
      else match significand a n k with
           | Some s => Some (s, k)
           | None => shortest fuel' a n (k + 1)
           end
  end.

(** Steps 6 to 10 on an integer: the digits followed by zeros up to 21
    digits, the exponent form beyond. *)
Definition positional (s n k : Z) : string :=
  if n <=? 21 then digits s +:+ zeros (n - k)
  else
    match digits s with
    | String c rest =>
        String c (match rest with EmptyString => "" | _ => "." +:+ rest end) +:+ "e+" +:+ digits (n - 1)
    | EmptyString => ""
    end.

(** Number::toString on a natural number: the plain digits up to 2^53, where
    every integer is a double and its own shortest numeral; beyond, the
    shortest numeral that is read back as the same double (an integer that
    is no double, which no cell can hold, keeps its digits). *)
Definition string_of_double (a : Z) : string :=
  if a <=? 2 ^ 53 then digits a
  else
    let d := Z.of_nat (String.length (digits a)) in
    if round53 (10 ^ d) =? a then positional 1 (d + 1) 1
    else match shortest 17 a d 1 with
         | Some (s, k) => positional s d k
         | None => digits a
         end.

Arguments round53 : simpl never.
Arguments string_of_double : simpl never.

(** ToString. *)
Definition String_ (p : scalar) : string :=
  match p with
  | SBool true => "true"
  | SBool false => "false"
  | SNum (Int z) => if z <? 0 then "-" +:+ string_of_double (- z) else string_of_double z
  | SNum NaN => "NaN"
  | SStr s => s
  end.

Definition ToString (v : value) : string :=
  match v with
  | Undefined => "undefined"
  | Null => "null"
  | Prim p => String_ p
  end.

(** [a === b] where [a] is a string. *)
Definition strict_eq_string (a : string) (b : scalar) : bool :=
  match b with
  | SStr s => String.eqb a s
  | SBool _ | SNum _ => false
  end.

(** [x + 1]: addition of doubles on numbers and booleans, concatenation on
    strings. *)
Definition plus1 (p : scalar) : scalar :=
  match p with
  | SNum (Int z) => SNum (Int (round53 (z + 1)))
  | SNum NaN => SNum NaN
  | SBool b => SNum (Int (Z.b2z b + 1))
  | SStr s => SStr (s +:+ "1")
  end.

(** [Number(x)].  A string is read as a plain decimal integer (digits, with
    an optional minus sign), rounded to a double; the other numerals JavaScript accepts (a plus
    sign, blanks around, fractions, exponents, other bases) are outside the
    integer model of numbers and read as [NaN], like any other text. *)
Definition Number_ (p : scalar) : number :=
  match p with
  | SNum n => n
  | SBool b => Int (Z.b2z b)
  | SStr s => if String.eqb s "" then Int 0
              else match NilZero.int_of_string s with
                   | Some d => Int (round53 (Z.of_int d))
                   | None => NaN
                   end
  end.

(** [['likes','dislikes','infos'].includes(field)]: SameValueZero, so only
    the three strings themselves are accepted. *)
Definition valid_fields : list string := ["likes"; "dislikes"; "infos"].

Definition includes_field (field : value) : bool :=
  match field with
  | Prim (SStr s) => bool_decide (s ∈ valid_fields)
  | _ => false
  end.

(** ** Exceptions *)

Record exn := Exn { name : string; message : string }.

#[global] Instance exn_eq_dec : EqDecision exn.
Proof. solve_decision. Defined.

Definition Error (msg : string) : exn := Exn "Error" msg.
Definition TypeError (msg : string) : exn := Exn "TypeError" msg.
Definition ReferenceError (msg : string) : exn := Exn "ReferenceError" msg.
(** What the spreadsheet service raises on a bad argument. *)
Definition Exception (msg : string) : exn := Exn "Exception" msg.

(** [error.toString()]. *)
Definition toString (e : exn) : string := name e +:+ ": " +:+ message e.

(** The error the specification calls InvalidField: an [Error] whose message
    starts with [Invalid field]. *)
Definition InvalidField (e : exn) : Prop :=
  name e = "Error" ∧ String.prefix "Invalid field" (message e) = true.

(** ** The spreadsheet *)

Record row := Row { colA : scalar; colB : scalar; colC : scalar; colD : scalar }.

#[global] Instance row_eq_dec : EqDecision row.
Proof. solve_decision. Defined.

Definition sheet := list row.

(** The spreadsheet, seen through its [metrics] tab: [None] while the tab
    does not exist. *)
Definition spreadsheet := option sheet.

Definition blank : scalar := SStr "".
Definition blank_row : row := Row blank blank blank blank.

(** ** Computations: state and exceptions

    A statement either completes with a value or throws; the changes made to
    the spreadsheet before a throw stay. *)

Inductive outcome (A : Type) := Ok (a : A) | Throw (e : exn).
Arguments Ok {A} a.
Arguments Throw {A} e.

Definition M (A : Type) : Type := spreadsheet → outcome A * spreadsheet.

Definition ret {A} (a : A) : M A := λ ss, (Ok a, ss).
Definition throw {A} (e : exn) : M A := λ ss, (Throw e, ss).
Definition bind {A B} (m : M A) (k : A → M B) : M B :=
  λ ss, match m ss with
        | (Ok a, ss') => k a ss'
        | (Throw e, ss') => (Throw e, ss')
        end.
(** [try { m } catch (error) { h error }]. *)
Definition try_catch {A} (m : M A) (h : exn → M A) : M A :=
  λ ss, match m ss with
        | (Ok a, ss') => (Ok a, ss')
        | (Throw e, ss') => h e ss'
        end.

Notation "'let*' x := m 'in' k" := (bind m (λ x, k))
  (at level 10, x name, m at level 100, k at level 200).

(** ** The spreadsheet service, as far as the scripts use it *)

Definition the_sheet (ss : spreadsheet) : sheet := default [] ss.

(** [ss.getSheetByName(name) || ss.insertSheet(name)]: afterwards the tab
    exists; a new tab is empty.  The model has the one tab both scripts use,
    so the name selects nothing. *)
Definition getSheetByName_or_insertSheet (name : value) : M unit :=
  λ ss, (Ok tt, Some (the_sheet ss)).

(** [sheet.getLastRow()]. *)
Definition getLastRow : M nat := λ ss, (Ok (length (the_sheet ss)), ss).

(** [sheet.appendRow(r)]. *)
Definition appendRow (r : row) : M unit :=
  λ ss, (Ok tt, Some (the_sheet ss ++ [r])).

(** [sheet.getDataRange().getValues()]: on an empty tab the data range is the
    single blank cell A1. *)
Definition getDataRange_getValues : M (list row) :=
  λ ss, (Ok (match the_sheet ss with [] => [blank_row] | sh => sh end), ss).

(** A column argument: the value found under a key of the column table. *)
Inductive colval :=
| CUndefined
| CNumber (n : nat)
| CInherited (key : string).

Definition truthy_col (c : colval) : bool :=
  match c with
  | CUndefined => false
  | CNumber n => negb (Nat.eqb n 0)
  | CInherited _ => true
  end.

Record range := Range { range_row : nat; range_col : nat }.

(** [sheet.getRange(row, col)]: rows and columns count from 1, and the column
    must be a number. *)
Definition getRange (row : nat) (col : colval) : M range :=
  match row, col with
  | S _, CNumber (S _ as c) => ret (Range row c)
  | _, _ => throw (Exception "The parameters don't match the method signature for SpreadsheetApp.Sheet.getRange.")
  end.

Definition get_col (c : nat) (r : row) : scalar :=
  match c with
  | 1 => colA r
  | 2 => colB r
  | 3 => colC r
  | 4 => colD r
  | _ => blank
  end%nat.

Definition set_col (c : nat) (v : scalar) (r : row) : row :=
  match c with
  | 1 => Row v (colB r) (colC r) (colD r)
  | 2 => Row (colA r) v (colC r) (colD r)
  | 3 => Row (colA r) (colB r) v (colD r)
  | 4 => Row (colA r) (colB r) (colC r) v
  | _ => r
  end%nat.

(** The row with 1-based number [n]; rows below the last one are blank. *)
Definition row_at (n : nat) (sh : sheet) : row := default blank_row (sh !! pred n).

(** Writing into row [n] extends the tab with blank rows when [n] lies below
    the last row. *)
Definition write_row (n : nat) (f : row → row) (sh : sheet) : sheet :=
  alter f (pred n) (sh ++ replicate (n - length sh) blank_row).

(** [range.getValue()]. *)
Definition getValue (rg : range) : M scalar :=
  λ ss, (Ok (get_col (range_col rg) (row_at (range_row rg) (the_sheet ss))), ss).

(** [range.setValue(v)]. *)
Definition setValue (rg : range) (v : scalar) : M unit :=
  λ ss, (Ok tt, Some (write_row (range_row rg) (set_col (range_col rg) v) (the_sheet ss))).

(** [sheet.getRange(row, 1, 1, 4).getValues()[0]]. *)
Definition getRowValues (n : nat) : M row :=
  λ ss, (Ok (row_at n (the_sheet ss)), ss).

(** [sheet.getRange(row, 2, 1, 3).setValues([[b, c, d]])]. *)
Definition setCounters (n : nat) (b c d : scalar) : M unit :=
  λ ss, (Ok tt, Some (write_row n (λ r, Row (colA r) b c d) (the_sheet ss))).

(** ** What the scripts return *)

(** The object [{slug, likes, dislikes, infos}]. *)
Record counts := Counts { slug : scalar; likes : scalar; dislikes : scalar; infos : scalar }.

#[global] Instance counts_eq_dec : EqDecision counts.
Proof. solve_decision. Defined.

(** The object handed to [JSON.stringify]. *)
Inductive data :=
| Result (c : counts)
| ErrorObject (error : string).

Inductive mime := JSON.

(** [ContentService.createTextOutput(JSON.stringify(d)).setMimeType(m)]. *)
Record TextOutput := { content : data; mimeType : mime }.

(** ** Requests *)

(** [e.postData.contents], by what [JSON.parse] makes of it. *)
Inductive contents :=
| Blank                                    (* empty: replaced by the text of the empty object *)
| Malformed                                (* JSON.parse throws a SyntaxError *)
| JsonNull                                 (* the text null *)
| JsonNonObject                            (* a number, string, boolean or array *)
| JsonObject (props : gmap string value).  (* an object with scalar or null properties *)

(** The event object of a web request: [e.parameter] always exists and maps
    names to strings; [e.postData] exists on a POST. *)
Record event := Event { parameter : gmap string string; postData : option contents }.

(** What [payload] is bound to. *)
Inductive payload :=
| PNull
| PNonObject
| PObject (props : gmap string value).

(** [payload.key] for a non-null payload. *)
Definition prop (p : payload) (key : string) : value :=
  match p with
  | PObject props => default Undefined (props !! key)
  | PNull | PNonObject => Undefined
  end.

(** [e.parameter.key]. *)
Definition param (e : event) (key : string) : value :=
  match parameter e !! key with
  | Some s => Prim (SStr s)
  | None => Undefined
  end.

(** [e.parameter] used as a payload. *)
Definition parameter_payload (e : event) : payload :=
  PObject ((λ s, Prim (SStr s)) <$> parameter e).

(** [JSON.parse(e.postData.contents || '{}')]: the parsed payload, or the
    exception raised ([e] or [e.postData] undefined, or text that is not JSON). *)
Definition parse_body (e : option event) : outcome payload :=
  match e with
  | None => Throw (TypeError "Cannot read properties of undefined (reading 'postData')")
  | Some ev =>
      match postData ev with
      | None => Throw (TypeError "Cannot read properties of undefined (reading 'contents')")
      | Some Blank => Ok (PObject ∅)
      | Some Malformed => Throw (Exn "SyntaxError" "Unexpected token in JSON")
      | Some JsonNull => Ok PNull
      | Some JsonNonObject => Ok PNonObject
      | Some (JsonObject props) => Ok (PObject props)
      end
  end.

(** The three counters, as the closed set the valid field names range over. *)
Inductive counter := Likes | Dislikes | Infos.

#[global] Instance counter_eq_dec : EqDecision counter.
Proof. solve_decision. Defined.

Definition field_name (f : counter) : string :=
  match f with
  | Likes => "likes"
  | Dislikes => "dislikes"
  | Infos => "infos"
  end.

Definition field_of (f : counter) : value := Prim (SStr (field_name f)).

(** The column of a counter (B, C, D). *)
Definition column (f : counter) : nat :=
  match f with
  | Likes => 2
  | Dislikes => 3
  | Infos => 4
  end%nat.

(** The counter [f] of a result object. *)
Definition get_count (f : counter) (c : counts) : scalar :=
  match f with
  | Likes => likes c
  | Dislikes => dislikes c
  | Infos => infos c
  end.

Definition lift {A} (o : outcome A) : M A := λ ss, (o, ss).

(** [payload.key], which throws on the payload [null]. *)
Definition read_prop (p : payload) (key : string) : outcome value :=
  match p with
  | PNull => Throw (TypeError ("Cannot read properties of null (reading '" +:+ key +:+ "')"))
  | _ => Ok (prop p key)
  end.

(** The properties every object literal inherits from [Object.prototype]:
    looking one of them up in the column table finds a function or an object,
    not [undefined]. *)
Definition Object_prototype_keys : list string :=
  ["constructor"; "__proto__"; "hasOwnProperty"; "isPrototypeOf";
   "propertyIsEnumerable"; "toLocaleString"; "toString"; "valueOf";
   "__defineGetter__"; "__defineSetter__"; "__lookupGetter__"; "__lookupSetter__"].

(** [{likes: 2, dislikes: 3, infos: 4}[field]]: the key is [ToString field]. *)
Definition colMap (field : value) : colval :=
  let key := ToString field in
  if String.eqb key "likes" then CNumber 2
  else if String.eqb key "dislikes" then CNumber 3
  else if String.eqb key "infos" then CNumber 4
  else if bool_decide (key ∈ Object_prototype_keys) then CInherited key
  else CUndefined.

(** The header row [['slug','likes','dislikes','infos']]. *)
Definition header : row := Row (SStr "slug") (SStr "likes") (SStr "dislikes") (SStr "infos").

(** The loop of [findRowBySlug_] from index [i] on, over the rows [data[i..]]:
    the first row whose first cell, as a string, is the slug; the result is
    the 1-based row number [i + 1]. *)
Fixpoint scan (slug : scalar) (i : nat) (rows : list row) : option nat :=
  match rows with
  | [] => None
  | r :: rest =>
      if strict_eq_string (String_ (colA r)) slug then Some (i + 1)%nat
      else scan slug (S i) rest
  end.

Definition createJsonResponse (d : data) : TextOutput :=
  {| content := d; mimeType := JSON |}.

(** A line written by [Logger.log]: a text, or the object handed to
    [JSON.stringify]. *)
Inductive logged :=
| LogText (s : string)
| LogJson (c : counts).

(** The line feed and the double quote, for the texts that contain them. *)
Definition nl : string := String (ascii_of_nat 10) EmptyString.
Definition dq : string := String (ascii_of_nat 34) EmptyString.

(** ** [src/apps.js] *)
Module Apps.

Definition SHEET_NAME : value := Prim (SStr "metrics").

Definition getSheet_ : M unit :=
  let* _ := getSheetByName_or_insertSheet SHEET_NAME in
  let* last := getLastRow in
  if Nat.eqb last 0 then appendRow header else ret tt.

Definition findRowBySlug_ (slug : scalar) : M (option nat) :=
  let* _ := getSheet_ in
  let* data := getDataRange_getValues in
  ret (scan slug 1 (drop 1 data)).

Definition ensureRow_ (slug : scalar) : M nat :=
  let* _ := getSheet_ in
  let* row := findRowBySlug_ slug in
  match row with
  | Some (S _ as r) => ret r
  | _ =>
      let* _ := appendRow (Row slug zero zero zero) in
      getLastRow
  end.

Definition readCounts_ (slug : scalar) : M counts :=
  let* row := findRowBySlug_ slug in
  let* _ := getSheet_ in
  match row with
  | Some (S _ as r) =>
      let* values := getRowValues r in
      ret (Counts (colA values) (or0 (colB values)) (or0 (colC values)) (or0 (colD values)))
  | _ => ret (Counts slug zero zero zero)
  end.

Definition bump_ (slug : scalar) (field : value) : M counts :=
  let* _ := getSheet_ in
  let* row := ensureRow_ slug in
  let col := colMap field in
  if negb (truthy_col col) then
    throw (Error ("Invalid field: " +:+ ToString field +:+ ". Must be likes, dislikes, or infos."))
  else
    let* rg := getRange row col in
    let* v := getValue rg in
    let currentVal := or0 v in
    let newVal := plus1 currentVal in
    let* rg' := getRange row col in
    let* _ := setValue rg' newVal in
    readCounts_ slug.

Definition doGet (e : option event) : M TextOutput :=
  try_catch
    match e with
    | None => throw (TypeError "Cannot read properties of undefined (reading 'parameter')")
    | Some ev =>
        let action := or_else (param ev "action") (SStr "get") in
        let slug := or_else (param ev "slug") (SStr "home") in
        if strict_eq_string "get" action then
          let* result := readCounts_ slug in
          ret (createJsonResponse (Result result))
        else if strict_eq_string "bump" action then
          let field := param ev "field" in
          if negb (truthy_value field) || negb (includes_field field) then
            ret (createJsonResponse (ErrorObject
              "Invalid or missing field parameter. Must be: likes, dislikes, or infos"))
          else
            let* result := bump_ slug field in
            ret (createJsonResponse (Result result))
        else
          ret (createJsonResponse (ErrorObject
            ("Unknown action: " +:+ String_ action +:+ ". Valid actions are: get, bump")))
    end
    (λ error, ret (createJsonResponse (ErrorObject (toString error)))).

Definition doPost (e : option event) : M TextOutput :=
  try_catch
    match e with
    | None =>
        (* e.postData throws, and so does e.parameter in the inner handler *)
        throw (TypeError "Cannot read properties of undefined (reading 'parameter')")
    | Some ev =>
        let payload :=
          match parse_body e with
          | Ok p => p
          | Throw _ => parameter_payload ev
          end in
        let* pslug := lift (read_prop payload "slug") in
        let slug := or_else pslug (or_else (param ev "slug") (SStr "home")) in
        let* pfield := lift (read_prop payload "field") in
        let field := js_or pfield (param ev "field") in
        if negb (truthy_value field) || negb (includes_field field) then
          ret (createJsonResponse (ErrorObject
            "Invalid or missing field. Must be: likes, dislikes, or infos"))
        else
          let* result := bump_ slug field in
          ret (createJsonResponse (Result result))
    end
    (λ error, ret (createJsonResponse (ErrorObject (toString error)))).

Definition resetSlug (slug : scalar) : M unit :=
  let* _ := getSheet_ in
  let* row := findRowBySlug_ slug in
  match row with
  | Some (S _ as r) => setCounters r zero zero zero
  | _ => ret tt
  end.

(** [testCounter], with the lines it logs, in order, as its result. *)
Definition testCounter : M (list logged) :=
  let* initial := readCounts_ (SStr "test") in
  let* afterLike := bump_ (SStr "test") (Prim (SStr "likes")) in
  let* afterDislike := bump_ (SStr "test") (Prim (SStr "dislikes")) in
  let* afterInfo := bump_ (SStr "test") (Prim (SStr "infos")) in
  let* final := readCounts_ (SStr "test") in
  ret [LogText "=== Testing Counter System ===";
       LogText (nl +:+ "1. Reading initial counts for " +:+ dq +:+ "test" +:+ dq +:+ ":");
       LogJson initial;
       LogText (nl +:+ "2. Bumping likes:");
       LogJson afterLike;
       LogText (nl +:+ "3. Bumping dislikes:");
       LogJson afterDislike;
       LogText (nl +:+ "4. Bumping infos:");
       LogJson afterInfo;
       LogText (nl +:+ "5. Final counts:");
       LogJson final;
       LogText (nl +:+ "=== Test Complete ===");
       LogText ("Check your Google Sheet for a " +:+ dq +:+ "metrics" +:+ dq +:+ " tab with test data")].

End Apps.

(** ** [src/unnamed/part_000] *)
Module Part000.

Section Script.

(** The global bindings the script runs with.  Its functions are written
    against them; [globals] below is what the file itself declares. *)
Variable env : gmap string value.

(** Reading an identifier: one that nothing declares raises a ReferenceError. *)
Definition ident (x : string) : M value :=
  match env !! x with
  | Some v => ret v
  | None => throw (ReferenceError (x +:+ " is not defined"))
  end.

(** The tab name is written as the bare identifier [metrics], not as the
    string and not as [SHEET_NAME]. *)
Definition getSheet_ : M unit :=
  let* metrics := ident "metrics" in
  let* _ := getSheetByName_or_insertSheet metrics in
  let* last := getLastRow in
  if Nat.eqb last 0 then appendRow header else ret tt.

Definition findRowBySlug_ (slug : scalar) : M (option nat) :=
  let* _ := getSheet_ in
  let* data := getDataRange_getValues in
  ret (scan slug 1 (drop 1 data)).

Definition ensureRow_ (slug : scalar) : M nat :=
  let* _ := getSheet_ in
  let* row := findRowBySlug_ slug in
  match row with
  | Some (S _ as r) => ret r
  | _ =>
      let* _ := appendRow (Row slug zero zero zero) in
      getLastRow
  end.

Definition readCounts_ (slug : scalar) : M counts :=
  let* row := findRowBySlug_ slug in
  let* _ := getSheet_ in
  match row with
  | Some (S _ as r) =>
      let* values := getRowValues r in
      ret (Counts (colA values) (colB values) (colC values) (colD values))
  | _ => ret (Counts slug zero zero zero)
  end.

Definition bump_ (slug : scalar) (field : value) : M counts :=
  if negb (includes_field field) then throw (Error "Invalid field")
  else
    let* _ := getSheet_ in
    let* row := ensureRow_ slug in
    let colIndex := colMap field in
    let* cell := getRange row colIndex in
    let* v := getValue cell in
    let* _ := setValue cell (plus1 (SNum (Number_ (or0 v)))) in
    readCounts_ slug.

Definition doGet (e : option event) : M TextOutput :=
  let slug :=
    or_else (match e with Some ev => param ev "slug" | None => Undefined end)
            (SStr "home") in
  let* result := readCounts_ slug in
  ret (createJsonResponse (Result result)).

Definition doPost (e : option event) : M TextOutput :=
  let payload :=
    match parse_body e with
    | Ok p => p
    | Throw _ => PObject ∅
    end in
  let* pslug := lift (read_prop payload "slug") in
  let slug := or_else pslug (SStr "home") in
  let* field := lift (read_prop payload "field") in
  let* result := bump_ slug field in
  ret (createJsonResponse (Result result)).

End Script.

(** What the file declares at top level besides its functions:
    [const SHEET_NAME = 'metrics']. *)
Definition globals : gmap string value := {[ "SHEET_NAME" := Prim (SStr "metrics") ]}.

End Part000.

(** ** Notions used to state the properties *)

(** The tab once [getSheet_] has run: created if missing, and given the
    header row if it had no row at all. *)
Definition boot (ss : spreadsheet) : sheet :=
  match the_sheet ss with
  | [] => [header]
  | sh => sh
  end.

(** The data rows: every row below the first one. *)
Definition data_rows (ss : spreadsheet) : list row := drop 1 (the_sheet ss).

(** Row [r] is a row of the slug: the test of [findRowBySlug_]. *)
Definition matches (slug : scalar) (r : row) : Prop :=
  strict_eq_string (String_ (colA r)) slug = true.

#[global] Instance matches_dec slug r : Decision (matches slug r).
Proof. unfold matches. apply _. Defined.

(** The index, among the data rows, of the first row of the slug. *)
Definition first_row (slug : scalar) (rows : list row) : option nat :=
  fst <$> list_find (matches slug) rows.

(** What [ensureRow_] yields on the booted tab: the number of the first row of
    the slug, or a fresh row appended below the last one. *)
Definition ensured (slug : scalar) (ss : spreadsheet) : nat * sheet :=
  match first_row slug (drop 1 (boot ss)) with
  | Some k => (S (S k), boot ss)
  | None => (S (length (boot ss)), boot ss ++ [Row slug zero zero zero])
  end.

(** The result object read off a row, as [readCounts_] of [apps.js] builds it. *)
Definition counts_of_row (r : row) : counts :=
  Counts (colA r) (or0 (colB r)) (or0 (colC r)) (or0 (colD r)).

(** The response a successful operation is turned into. *)
Definition respond (m : M counts) : M TextOutput :=
  let* result := m in
  ret (createJsonResponse (Result result)).

(** [m] run [n] times in a row. *)
Fixpoint times (n : nat) (m : M counts) : M unit :=
  match n with
  | O => ret tt
  | S n' => let* _ := m in times n' m
  end.

(** The counter [f] that [readCounts_] of [apps.js] reports for a slug. *)
Definition reading (ss : spreadsheet) (s : string) (f : counter) : scalar :=
  match Apps.readCounts_ (SStr s) ss with
  | (Ok c, _) => get_count f c
  | (Throw _, _) => blank
  end.

(** The slug has no row: [findRowBySlug_] of [apps.js] answers [null]. *)
Definition no_row (s : string) (ss : spreadsheet) : Prop :=
  (Apps.findRowBySlug_ (SStr s) ss).1 = Ok None.

(** The payload [doPost] of [apps.js] works on: the parsed body, or the query
    parameters when the body cannot be parsed. *)
Definition apps_payload (ev : event) : payload :=
  match parse_body (Some ev) with
  | Ok p => p
  | Throw _ => parameter_payload ev
  end.

(** The payload [doPost] of [part_000] works on: the parsed body, or the
    empty object. *)
Definition part000_payload (e : option event) : payload :=
  match parse_body e with
  | Ok p => p
  | Throw _ => PObject ∅
  end.

(** *** The store invariant *)



(** The slug a data row stands for. *)
Definition row_slug (r : row) : string := String_ (colA r).


(** *** Sequential use of the store *)

(** The public operations of [apps.js], on string slugs: the three store
    operations and the two entry points. *)
Inductive op :=
| OpRead (s : string)
| OpBump (s : string) (field : value)
| OpReset (s : string)
| OpGet (e : option event)
| OpPost (e : option event).

(** The state an operation leaves, whether it returns or throws. *)
Definition exec (o : op) (ss : spreadsheet) : spreadsheet :=
  match o with
  | OpRead s => (Apps.readCounts_ (SStr s) ss).2
  | OpBump s field => (Apps.bump_ (SStr s) field ss).2
  | OpReset s => (Apps.resetSlug (SStr s) ss).2
  | OpGet e => (Apps.doGet e ss).2
  | OpPost e => (Apps.doPost e ss).2
  end.

(** A POST body that names a slug names it by a string, as the interface
    requires: its [slug] property is absent, falsy, or a string. *)
Definition string_slug (e : option event) : Prop :=
  match e with
  | Some ev =>
      match prop (apps_payload ev) "slug" with
      | Prim (SBool _ as p) | Prim (SNum _ as p) => truthy p = false
      | _ => True
      end
  | None => True
  end.

Definition admissible (o : op) : Prop :=
  match o with
  | OpPost e => string_slug e
  | _ => True
  end.


Definition is_reset (o : op) : Prop :=
  match o with
  | OpReset _ => True
  | _ => False
  end.

(** The exception raised where [part_000] reads the identifier [metrics]. *)
Definition metrics_undeclared : exn := ReferenceError "metrics is not defined".

(** *** What a request asks for *)

(** [e.parameter.slug || 'home'] and [e.parameter.action || 'get']. *)
Definition request_slug (ev : event) : scalar := or_else (param ev "slug") (SStr "home").
Definition request_action (ev : event) : scalar := or_else (param ev "action") (SStr "get").

(** [payload.slug || e.parameter.slug || 'home'] and
    [payload.field || e.parameter.field] in [doPost] of [apps.js]. *)
Definition post_slug (ev : event) : scalar :=
  or_else (prop (apps_payload ev) "slug") (request_slug ev).
Definition post_field (ev : event) : value :=
  js_or (prop (apps_payload ev) "field") (param ev "field").

(** The error payload [{error: msg}]. *)
Definition error_response (msg : string) : TextOutput :=
  createJsonResponse (ErrorObject msg).

(** *** Sample requests and stores *)

(** A POST whose body is not JSON, with the slug and the field in the query
    string. *)
Definition malformed_post : event :=
  Event {[ "slug" := "post-1"; "field" := "likes" ]} (Some Malformed).



(** A request with no parameter at all. *)
Definition bare_request : event := Event ∅ None.

(** A tab in which the slug [a] has two rows, as after a manual edit. *)
Definition duplicated : spreadsheet :=
  Some [header;
        Row (SStr "a") (SNum (Int 1)) zero zero;
        Row (SStr "b") (SNum (Int 7)) zero zero;
        Row (SStr "a") (SNum (Int 5)) zero zero].

(** The bindings [part_000] would run with if the identifier [metrics] were
    declared with the tab's name. *)
Definition with_metrics : gmap string value :=
  <["metrics" := Prim (SStr "metrics")]> Part000.globals.

(** *** Further notions *)

(** The slugs of the data rows, in row order. *)
Definition slugs (ss : spreadsheet) : list string := row_slug <$> data_rows ss.

(** A slug that is not a string: a number or a boolean, as a JSON body can
    carry. *)
Definition not_string (slug : scalar) : Prop :=
  match slug with
  | SStr _ => False
  | SBool _ | SNum _ => True
  end.

(** The objects among the lines logged. *)
Definition logged_counts (l : list logged) : list counts :=
  omap (λ x, match x with LogJson c => Some c | LogText _ => None end) l.

(** The result object with the three given integers. *)
Definition counts_of (slug : scalar) (a b c : Z) : counts :=
  Counts slug (SNum (Int a)) (SNum (Int b)) (SNum (Int c)).

(** A GET that asks for a bump, and a POST with a JSON body. *)
Definition bump_get (s f : string) : event :=
  Event {[ "action" := "bump"; "slug" := s; "field" := f ]} None.
Definition bump_post (s f : string) : event :=
  Event ∅ (Some (JsonObject {[ "slug" := Prim (SStr s); "field" := Prim (SStr f) ]})).

(** ** The spreadsheet service and the helpers of [apps.js], equationally *)

Lemma scan_first_row slug i rows :
  scan slug i rows = (λ k, (i + k + 1)%nat) <$> first_row slug rows.
Proof.
  unfold first_row. revert i.
  induction rows as [|r rows IH]; intros i; [done|].
  cbn [scan list_find].
  destruct (decide (matches slug r)) as [Hm|Hm]; unfold matches in Hm.
  - rewrite Hm. cbn. f_equal. lia.
  - apply not_true_is_false in Hm. rewrite Hm, IH.
    destruct (list_find (matches slug) rows) as [[k x]|]; cbn; [|done].
    f_equal. lia.
Qed.

Lemma boot_cons ss : ∃ h rows, boot ss = h :: rows.
Proof. unfold boot. destruct (the_sheet ss) as [|h rows]; eauto. Qed.

Lemma boot_Some_cons h rows : boot (Some (h :: rows)) = h :: rows.
Proof. done. Qed.

Lemma boot_idem ss : boot (Some (boot ss)) = boot ss.
Proof. destruct (boot_cons ss) as (h & rows & ->). done. Qed.

Lemma getSheet_eq ss : Apps.getSheet_ ss = (Ok tt, Some (boot ss)).
Proof.
  unfold Apps.getSheet_, bind, getSheetByName_or_insertSheet, getLastRow, boot.
  cbn. destruct (the_sheet ss); done.
Qed.

Lemma findRowBySlug_eq slug ss :
  Apps.findRowBySlug_ slug ss = (Ok (scan slug 1 (drop 1 (boot ss))), Some (boot ss)).
Proof.
  unfold Apps.findRowBySlug_, bind. rewrite getSheet_eq.
  destruct (boot_cons ss) as (h & rows & ->). done.
Qed.

Lemma ensureRow_eq slug ss :
  Apps.ensureRow_ slug ss = (Ok (ensured slug ss).1, Some (ensured slug ss).2).
Proof.
  unfold Apps.ensureRow_, bind, ensured.
  rewrite getSheet_eq, findRowBySlug_eq, boot_idem, scan_first_row.
  destruct (first_row slug (drop 1 (boot ss))) as [k|]; cbn.
  - by rewrite Nat.add_1_r.
  - unfold getLastRow. cbn. by rewrite length_app, Nat.add_1_r.
Qed.

Lemma readCounts_eq slug ss :
  Apps.readCounts_ slug ss =
  (Ok match first_row slug (drop 1 (boot ss)) with
      | Some k => counts_of_row (row_at (S (S k)) (boot ss))
      | None => Counts slug zero zero zero
      end, Some (boot ss)).
Proof.
  unfold Apps.readCounts_, bind.
  rewrite findRowBySlug_eq, getSheet_eq, boot_idem, scan_first_row.
  destruct (first_row slug (drop 1 (boot ss))) as [k|]; cbn; [|done].
  by rewrite Nat.add_1_r.
Qed.

Lemma resetSlug_eq slug ss :
  Apps.resetSlug slug ss =
  (Ok tt, Some match first_row slug (drop 1 (boot ss)) with
               | Some k => write_row (S (S k)) (λ r, Row (colA r) zero zero zero) (boot ss)
               | None => boot ss
               end).
Proof.
  unfold Apps.resetSlug, bind.
  rewrite getSheet_eq, findRowBySlug_eq, boot_idem, scan_first_row.
  destruct (first_row slug (drop 1 (boot ss))) as [k|]; cbn; [|done].
  by rewrite Nat.add_1_r.
Qed.

Lemma ensured_cons slug ss : ∃ h rows, (ensured slug ss).2 = h :: rows.
Proof.
  unfold ensured. destruct (boot_cons ss) as (h & rows & ->).
  destruct (first_row _ _); cbn; eauto.
Qed.

Lemma boot_ensured slug ss : boot (Some (ensured slug ss).2) = (ensured slug ss).2.
Proof. destruct (ensured_cons slug ss) as (h & rows & ->). done. Qed.

Lemma ensured_boot slug ss : ensured slug (Some (boot ss)) = ensured slug ss.
Proof. unfold ensured. by rewrite boot_idem. Qed.

Lemma colMap_field f : colMap (field_of f) = CNumber (column f).
Proof. by destruct f. Qed.

(** [bump_] of [apps.js] on a valid field: one cell of the ensured row is
    rewritten, then the counts are read back. *)
Lemma bump_eq slug f ss :
  Apps.bump_ slug (field_of f) ss =
  let '(r, sh) := ensured slug ss in
  let newVal := plus1 (or0 (get_col (column f) (row_at r sh))) in
  Apps.readCounts_ slug (Some (write_row r (set_col (column f) newVal) sh)).
Proof.
  unfold Apps.bump_, bind.
  rewrite getSheet_eq, ensureRow_eq, ensured_boot, colMap_field.
  destruct (ensured slug ss) as [r sh] eqn:E. cbn [fst snd].
  assert (∃ r', r = S r') as [r' ->].
  { unfold ensured in E. destruct (first_row _ _); inversion E; eauto. }
  by destruct f.
Qed.

(** ** Rows of a slug *)

Lemma matches_SStr s r : matches (SStr s) r ↔ String_ (colA r) = s.
Proof. unfold matches. cbn. apply String.eqb_eq. Qed.

Lemma first_row_Some slug rows k :
  first_row slug rows = Some k ↔ ∃ r, list_find (matches slug) rows = Some (k, r).
Proof.
  unfold first_row. destruct (list_find _ _) as [[k' r]|]; cbn; split.
  - intros [= ->]. eauto.
  - intros (r' & [= -> ->]). done.
  - done.
  - intros (? & [=]).
Qed.

Lemma first_row_None slug rows :
  first_row slug rows = None ↔ Forall (λ r, ¬ matches slug r) rows.
Proof.
  unfold first_row. split.
  - intros H. apply (list_find_None (matches slug)).
    by destruct (list_find (matches slug) rows).
  - intros H. apply (list_find_None (matches slug)) in H. by rewrite H.
Qed.

(** Rewriting a row without touching its first cell does not move the first
    row of any slug. *)
Lemma first_row_alter slug (f : row → row) k rows :
  (∀ r, colA (f r) = colA r) →
  first_row slug (alter f k rows) = first_row slug rows.
Proof.
  intros Hf. unfold first_row. revert k.
  induction rows as [|r rows IH]; intros k; [done|].
  assert (Hm : ∀ x, matches slug (f x) ↔ matches slug x).
  { intros x. unfold matches. by rewrite Hf. }
  destruct k as [|k]; cbn.
  - destruct (decide (matches slug (f r))) as [H1|H1],
             (decide (matches slug r)) as [H2|H2]; cbn; try done; exfalso.
    + by apply H2, Hm.
    + by apply H1, Hm.
  - destruct (decide (matches slug r)); [done|].
    specialize (IH k).
    change (list_alter f k rows) with (alter f k rows).
    destruct (list_find (matches slug) (alter f k rows)) as [[? ?]|],
             (list_find (matches slug) rows) as [[? ?]|]; cbn in *; congruence.
Qed.

Lemma set_col_colA f v r : colA (set_col (column f) v r) = colA r.
Proof. by destruct f. Qed.

Lemma write_row_data k (f : row → row) h rows :
  (k < length rows)%nat →
  write_row (S (S k)) f (h :: rows) = h :: alter f k rows.
Proof.
  intros Hk. unfold write_row. cbn [length pred].
  replace (S (S k) - S (length rows))%nat with 0%nat by lia.
  cbn. by rewrite app_nil_r.
Qed.

Lemma row_at_data k h rows r :
  rows !! k = Some r → row_at (S (S k)) (h :: rows) = r.
Proof.
  intros H. unfold row_at. cbn [pred].
  change ((h :: rows) !! S k) with (rows !! k). by rewrite H.
Qed.

(** After [ensureRow_] a string slug has a first row, and that is the row
    [ensureRow_] returns. *)
Lemma ensured_spec s ss :
  ∃ h rows k r,
    ensured (SStr s) ss = (S (S k), h :: rows) ∧
    list_find (matches (SStr s)) rows = Some (k, r).
Proof.
  unfold ensured. destruct (boot_cons ss) as (h & rows & ->).
  change (drop 1 (h :: rows)) with rows.
  destruct (first_row (SStr s) rows) as [k|] eqn:E.
  - apply first_row_Some in E as [r Hr]. by exists h, rows, k, r.
  - exists h, (rows ++ [Row (SStr s) zero zero zero]), (length rows),
      (Row (SStr s) zero zero zero).
    split; [done|].
    unfold first_row in E.
    destruct (list_find (matches (SStr s)) rows) as [[? ?]|] eqn:E'; [done|].
    rewrite list_find_app_r by done. cbn.
    rewrite decide_True by (by apply matches_SStr). done.
Qed.

(** [bump_] of [apps.js] on a string slug and a valid field: the cell of
    counter [f] in the first row of the slug goes from [v] to [(v || 0) + 1],
    nothing else changes, and the result is read off that row. *)
Lemma bump_spec s f ss :
  ∃ h rows k r,
    ensured (SStr s) ss = (S (S k), h :: rows) ∧
    list_find (matches (SStr s)) rows = Some (k, r) ∧
    let r' := set_col (column f) (plus1 (or0 (get_col (column f) r))) r in
    Apps.bump_ (SStr s) (field_of f) ss =
    (Ok (counts_of_row r'), Some (h :: <[k := r']> rows)).
Proof.
  destruct (ensured_spec s ss) as (h & rows & k & r & He & Hf).
  exists h, rows, k, r. split; [done|]. split; [done|]. intros r'.
  pose proof (proj1 (list_find_Some _ _ _ _) Hf) as (Hk & _ & _).
  assert (k < length rows)%nat as Hlt by (by eapply lookup_lt_Some).
  rewrite bump_eq, He. cbn zeta.
  rewrite (row_at_data _ _ _ _ Hk), write_row_data by done.
  rewrite readCounts_eq, boot_Some_cons.
  change (drop 1 (h :: ?l)) with l.
  rewrite first_row_alter by (intros; apply set_col_colA).
  unfold first_row. rewrite Hf. cbn [fmap option_fmap option_map fst].
  assert (alter (set_col (column f) (plus1 (or0 (get_col (column f) r)))) k rows
          = <[k := r']> rows) as ->.
  { apply list_eq. intros j. destruct (decide (k = j)) as [<-|Hne].
    - rewrite list_lookup_alter_eq, list_lookup_insert_eq by done. by rewrite Hk.
    - by rewrite list_lookup_alter_ne, list_lookup_insert_ne. }
  erewrite row_at_data; [done|].
  by rewrite list_lookup_insert_eq.
Qed.

Lemma drop_boot ss : drop 1 (boot ss) = data_rows ss.
Proof. unfold boot, data_rows. by destruct (the_sheet ss). Qed.

Lemma data_rows_boot ss : data_rows (Some (boot ss)) = data_rows ss.
Proof. by rewrite <- (drop_boot (Some (boot ss))), boot_idem, drop_boot. Qed.

Lemma data_rows_cons h rows : data_rows (Some (h :: rows)) = rows.
Proof. done. Qed.

Lemma row_at_boot k r ss :
  data_rows ss !! k = Some r → row_at (S (S k)) (boot ss) = r.
Proof.
  rewrite <- drop_boot. destruct (boot_cons ss) as (h & rows & ->).
  apply row_at_data.
Qed.

(** Adding one is exact up to 2^53, and changes nothing at 2^53. *)
Lemma round53_small z : Z.abs z ≤ 2 ^ 53 → round53 z = z.
Proof. intros H. unfold round53. by rewrite (proj2 (Z.leb_le _ _) H). Qed.

Lemma plus1_small z :
  - 2 ^ 53 - 1 ≤ z < 2 ^ 53 → plus1 (SNum (Int z)) = SNum (Int (z + 1)).
Proof. intros H. cbn. rewrite round53_small; [done|lia]. Qed.

Lemma plus1_top : plus1 (SNum (Int (2 ^ 53))) = SNum (Int (2 ^ 53)).
Proof. by vm_compute. Qed.

Lemma or0_plus1 v : or0 (plus1 (or0 v)) = plus1 (or0 v).
Proof.
  destruct v as [[]|[z|]|s]; try done.
  - unfold or0, or_else. cbn. destruct (Z.eqb_spec z 0) as [->|Hz]; cbn.
    + reflexivity.
    + by destruct (Z.eqb_spec (round53 (z + 1)) 0) as [->|?].
  - unfold or0, or_else. cbn. destruct (String.eqb_spec s "") as [->|Hs]; cbn; [done|].
    by destruct s.
Qed.

Lemma get_count_of_row f r :
  get_count f (counts_of_row r) = or0 (get_col (column f) r).
Proof. by destruct f. Qed.

Lemma get_set_col f g v r :
  get_col (column g) (set_col (column f) v r) =
  if decide (g = f) then v else get_col (column g) r.
Proof. by destruct f, g. Qed.

(** What [readCounts_] of [apps.js] reports, read off the data rows. *)
Lemma reading_eq ss s f :
  reading ss s f =
  match list_find (matches (SStr s)) (data_rows ss) with
  | Some (_, r) => or0 (get_col (column f) r)
  | None => zero
  end.
Proof.
  unfold reading. rewrite readCounts_eq, drop_boot. unfold first_row.
  destruct (list_find (matches (SStr s)) (data_rows ss)) as [[k r]|] eqn:E; cbn.
  - apply list_find_Some in E as (Hk & _ & _).
    by rewrite (row_at_boot _ _ _ Hk), get_count_of_row.
  - by destruct f.
Qed.

Lemma no_row_iff s ss :
  no_row s ss ↔ list_find (matches (SStr s)) (data_rows ss) = None.
Proof.
  unfold no_row. rewrite findRowBySlug_eq, scan_first_row, drop_boot. cbn.
  unfold first_row.
  destruct (list_find (matches (SStr s)) (data_rows ss)) as [[k r]|]; cbn;
    split; congruence.
Qed.

(** ** [apps.js]: reading *)

(** C3 on [apps.js]: the claim holds.  [readCounts_] returns a result
    object for every slug and every store; all it does to the store is what
    [getSheet_] does (create the tab and its header when missing). *)
Lemma apps_readCounts_returns slug ss :
  ∃ c, Apps.readCounts_ slug ss = (Ok c, Some (boot ss)).
Proof. rewrite readCounts_eq. eauto. Qed.

(** C6 on [apps.js]: the claim holds.  Reading a slug without a row returns
    zeros, leaves the data rows as they were, and the slug still has no row. *)
Lemma apps_readCounts_unknown s ss :
  no_row s ss →
  ∃ ss', Apps.readCounts_ (SStr s) ss = (Ok (Counts (SStr s) zero zero zero), ss') ∧
         data_rows ss' = data_rows ss ∧ no_row s ss'.
Proof.
  intros H. exists (Some (boot ss)). split; [|split].
  - apply no_row_iff in H. rewrite readCounts_eq, drop_boot. unfold first_row.
    by rewrite H.
  - apply data_rows_boot.
  - apply no_row_iff. rewrite data_rows_boot. by apply no_row_iff.
Qed.

(** ** [apps.js]: bumping *)

Lemma list_find_insert_same slug k r r' rows :
  list_find (matches slug) rows = Some (k, r) →
  colA r' = colA r →
  list_find (matches slug) (<[k := r']> rows) = Some (k, r').
Proof.
  intros Hf HA. apply list_find_Some in Hf as (Hk & Hm & Hlt).
  apply list_find_Some. split; [|split].
  - apply list_lookup_insert_eq. by eapply lookup_lt_Some.
  - unfold matches in *. by rewrite HA.
  - intros j y Hj Hjk. rewrite list_lookup_insert_ne in Hj by lia. eauto.
Qed.

(** The data rows once [ensureRow_] has run. *)
Lemma ensured_data slug ss :
  data_rows (Some (ensured slug ss).2) =
  match first_row slug (data_rows ss) with
  | Some _ => data_rows ss
  | None => data_rows ss ++ [Row slug zero zero zero]
  end.
Proof.
  unfold ensured. rewrite drop_boot.
  destruct (first_row slug (data_rows ss)); cbn [snd].
  - apply data_rows_boot.
  - rewrite <- (drop_boot ss). destruct (boot_cons ss) as (h & rows & ->). done.
Qed.

(** [ensureRow_] changes no reading: a row it appends holds zeros. *)
Lemma reading_ensured s ss s' g :
  reading (Some (ensured (SStr s) ss).2) s' g = reading ss s' g.
Proof.
  rewrite !reading_eq, ensured_data.
  destruct (first_row (SStr s) (data_rows ss)) as [k|] eqn:E; [done|].
  destruct (list_find (matches (SStr s')) (data_rows ss)) as [[j r]|] eqn:E'.
  - by rewrite (list_find_app_l _ _ _ _ _ E').
  - rewrite list_find_app_r by done. cbn.
    destruct (decide (matches (SStr s') _)); cbn; [|done]. by destruct g.
Qed.

(** [bump_] of [apps.js] in terms of the data rows. *)
Lemma bump_data s f ss :
  ∃ k r ss',
    list_find (matches (SStr s)) (data_rows (Some (ensured (SStr s) ss).2)) = Some (k, r) ∧
    let r' := set_col (column f) (plus1 (or0 (get_col (column f) r))) r in
    Apps.bump_ (SStr s) (field_of f) ss = (Ok (counts_of_row r'), ss') ∧
    data_rows ss' = <[k := r']> (data_rows (Some (ensured (SStr s) ss).2)) ∧
    boot ss' = the_sheet ss'.
Proof.
  destruct (bump_spec s f ss) as (h & rows & k & r & He & Hf & Hb).
  exists k, r, (Some (h :: <[k := set_col (column f) (plus1 (or0 (get_col (column f) r))) r]> rows)).
  rewrite He. cbn [snd]. rewrite data_rows_cons. by repeat split.
Qed.

(** C2 on [apps.js]: the claim holds.  One [bump_] of a counter that reads
    [n] makes it read [n + 1] (as doubles add), leaves the two other counters of the slug as
    they read, and returns the row as [readCounts_] reads it afterwards. *)
Lemma apps_bump_once s f ss n :
  reading ss s f = SNum (Int n) →
  ∃ c ss',
    Apps.bump_ (SStr s) (field_of f) ss = (Ok c, ss') ∧
    reading ss' s f = plus1 (SNum (Int n)) ∧
    (∀ g, g ≠ f → reading ss' s g = reading ss s g) ∧
    (∀ g, get_count g c = reading ss' s g).
Proof.
  intros Hn. destruct (bump_data s f ss) as (k & r & ss' & Hf & Hb & Hd & _).
  cbn zeta in *. eexists _, ss'. split; [exact Hb|].
  rewrite <- (reading_ensured s), reading_eq, Hf in Hn.
  assert (Hread : ∀ g, reading ss' s g =
            or0 (if decide (g = f) then plus1 (or0 (get_col (column f) r))
                 else get_col (column g) r)).
  { intros g. rewrite reading_eq, Hd.
    erewrite list_find_insert_same; [|done|apply set_col_colA].
    by rewrite get_set_col. }
  split; [|split].
  - rewrite Hread, decide_True, or0_plus1, Hn by done. done.
  - intros g Hg. rewrite Hread, decide_False by done.
    by rewrite <- (reading_ensured s ss s g), reading_eq, Hf.
  - intros g. by rewrite Hread, get_count_of_row, get_set_col.
Qed.

(** On [apps.js], [n] bumps in a row add [n] to the counter, as long as the
    sum stays within 2^53. *)
Lemma apps_bump_times s f n : ∀ ss m,
  reading ss s f = SNum (Int m) →
  - 2 ^ 53 - 1 ≤ m → m + Z.of_nat n ≤ 2 ^ 53 →
  ∃ ss', times n (Apps.bump_ (SStr s) (field_of f)) ss = (Ok tt, ss') ∧
         reading ss' s f = SNum (Int (m + Z.of_nat n)).
Proof.
  induction n as [|n IH]; intros ss m Hm Hlo Hhi.
  - exists ss. split; [done|]. by rewrite Z.add_0_r.
  - destruct (apps_bump_once s f ss m Hm) as (c & ss1 & Hb & H1 & _).
    rewrite plus1_small in H1 by lia.
    destruct (IH ss1 _ H1) as (ss' & Ht & Hr); [lia|lia|].
    exists ss'. split.
    + cbn [times]. unfold bind. by rewrite Hb.
    + rewrite Hr. do 2 f_equal. lia.
Qed.

Lemma reading_no_row s ss f : no_row s ss → reading ss s f = zero.
Proof. intros H. apply no_row_iff in H. by rewrite reading_eq, H. Qed.

(** ** Field names *)

(** The numeral of a number starts with a digit or with the minus sign. *)
Lemma digits_head a :
  ∃ c rest, digits a = String c rest ∧ (nat_of_ascii c <? 58)%nat = true.
Proof.
  unfold digits, NilZero.string_of_uint.
  destruct (N.to_uint (Z.to_N a)); cbn; by eexists _, _.
Qed.

Lemma positional_head s n k c rest :
  positional s n k = String c rest → (nat_of_ascii c <? 58)%nat = true.
Proof.
  unfold positional. destruct (digits_head s) as (c' & rest' & -> & Hc).
  destruct (n <=? 21); cbn; by intros [= <- _].
Qed.

Lemma string_of_double_head a c rest :
  string_of_double a = String c rest → (nat_of_ascii c <? 58)%nat = true.
Proof.
  unfold string_of_double.
  assert (Hd : digits a = String c rest → (nat_of_ascii c <? 58)%nat = true).
  { destruct (digits_head a) as (c' & rest' & -> & Hc). by intros [= <- _]. }
  destruct (a <=? 2 ^ 53); [done|].
  destruct (_ =? a); [apply positional_head|].
  destruct (shortest _ _ _ _) as [[s k]|]; [apply positional_head|done].
Qed.

Lemma String_number_head z c rest :
  String_ (SNum (Int z)) = String c rest → (nat_of_ascii c <? 58)%nat = true.
Proof.
  cbn. destruct (z <? 0).
  - by intros [= <- _].
  - apply string_of_double_head.
Qed.

(** Only the string itself converts to one of the three field names. *)
Lemma ToString_field field f :
  ToString field = field_name f → field = field_of f.
Proof.
  destruct field as [| |[[]|[z|]|s]]; cbn; try (by destruct f).
  - intros H. destruct f; apply String_number_head in H; discriminate.
  - by intros ->.
Qed.

Lemma colMap_number field c :
  colMap field = CNumber c → ∃ f, field = field_of f ∧ c = column f.
Proof.
  unfold colMap.
  destruct (String.eqb_spec (ToString field) "likes") as [H|_].
  { intros [= <-]. exists Likes. split; [|done]. by apply ToString_field. }
  destruct (String.eqb_spec (ToString field) "dislikes") as [H|_].
  { intros [= <-]. exists Dislikes. split; [|done]. by apply ToString_field. }
  destruct (String.eqb_spec (ToString field) "infos") as [H|_].
  { intros [= <-]. exists Infos. split; [|done]. by apply ToString_field. }
  by case_bool_decide.
Qed.

Lemma includes_field_true field :
  includes_field field = true → ∃ f, field = field_of f.
Proof.
  destruct field as [| |[b|n|s]]; cbn; try done.
  intros H. apply bool_decide_eq_true in H.
  unfold valid_fields in H. rewrite !elem_of_cons in H.
  destruct H as [->|[->|[->|H]]].
  - by exists Likes.
  - by exists Dislikes.
  - by exists Infos.
  - by apply elem_of_nil in H.
Qed.

Lemma includes_field_of f : includes_field (field_of f) = true.
Proof. by destruct f. Qed.

Lemma truthy_field_of f : truthy_value (field_of f) = true.
Proof. by destruct f. Qed.

(** [bump_] of [apps.js] on anything but a valid field: the row is ensured
    first, then the call throws. *)
Lemma bump_rejected slug field ss :
  (∀ c, colMap field ≠ CNumber c) →
  ∃ e, Apps.bump_ slug field ss = (Throw e, Some (ensured slug ss).2).
Proof.
  intros Hc. unfold Apps.bump_, bind.
  rewrite getSheet_eq, ensureRow_eq, ensured_boot. cbn [fst snd].
  destruct (colMap field) as [|c|key] eqn:E; cbn.
  - unfold throw. eauto.
  - by destruct (Hc c).
  - unfold getRange. destruct (ensured slug ss).1; unfold throw; eauto.
Qed.

Lemma bump_undefined_column slug field ss :
  colMap field = CUndefined →
  Apps.bump_ slug field ss =
  (Throw (Error ("Invalid field: " +:+ ToString field +:+ ". Must be likes, dislikes, or infos.")),
   Some (ensured slug ss).2).
Proof.
  intros Hc. unfold Apps.bump_, bind.
  rewrite getSheet_eq, ensureRow_eq, ensured_boot, Hc. done.
Qed.

(** ** [part_000]: every use of the tab stops at the undeclared identifier *)

Lemma part000_metrics_undeclared : Part000.globals !! "metrics" = None.
Proof. done. Qed.

Lemma part000_getSheet_throws env ss :
  env !! "metrics" = None →
  Part000.getSheet_ env ss = (Throw metrics_undeclared, ss).
Proof. intros H. unfold Part000.getSheet_, Part000.ident, bind. by rewrite H. Qed.

Lemma part000_findRowBySlug_throws env slug ss :
  env !! "metrics" = None →
  Part000.findRowBySlug_ env slug ss = (Throw metrics_undeclared, ss).
Proof.
  intros H. unfold Part000.findRowBySlug_, bind.
  by rewrite part000_getSheet_throws.
Qed.

Lemma part000_ensureRow_throws env slug ss :
  env !! "metrics" = None →
  Part000.ensureRow_ env slug ss = (Throw metrics_undeclared, ss).
Proof.
  intros H. unfold Part000.ensureRow_, bind.
  by rewrite part000_getSheet_throws.
Qed.

Lemma part000_readCounts_throws env slug ss :
  env !! "metrics" = None →
  Part000.readCounts_ env slug ss = (Throw metrics_undeclared, ss).
Proof.
  intros H. unfold Part000.readCounts_, bind.
  by rewrite part000_findRowBySlug_throws.
Qed.

Lemma part000_bump_valid_throws env slug f ss :
  env !! "metrics" = None →
  Part000.bump_ env slug (field_of f) ss = (Throw metrics_undeclared, ss).
Proof.
  intros H. unfold Part000.bump_. rewrite includes_field_of. cbn [negb].
  unfold bind. by rewrite part000_getSheet_throws.
Qed.

(** [bump_] of [part_000] checks the field before it touches the tab. *)
Lemma part000_bump_invalid_field env slug field ss :
  includes_field field = false →
  Part000.bump_ env slug field ss = (Throw (Error "Invalid field"), ss).
Proof. intros H. unfold Part000.bump_. by rewrite H. Qed.

Lemma part000_times_bump_throws env n slug f ss :
  env !! "metrics" = None →
  times (S n) (Part000.bump_ env slug (field_of f)) ss = (Throw metrics_undeclared, ss).
Proof. intros H. cbn. unfold bind. by rewrite part000_bump_valid_throws. Qed.

(** ** The store invariant under single steps *)











Lemma alter_insert {A} (g : A → A) k (l : list A) x :
  l !! k = Some x → alter g k l = <[k := g x]> l.
Proof.
  intros Hk. apply list_eq. intros j. destruct (decide (k = j)) as [<-|Hne].
  - rewrite list_lookup_alter_eq, list_lookup_insert_eq by (by eapply lookup_lt_Some).
    by rewrite Hk.
  - by rewrite list_lookup_alter_ne, list_lookup_insert_ne.
Qed.

Lemma data_rows_write_row k (g : row → row) ss :
  (k < length (data_rows ss))%nat →
  data_rows (Some (write_row (S (S k)) g (boot ss))) = alter g k (data_rows ss).
Proof.
  rewrite <- (drop_boot ss). destruct (boot_cons ss) as (h & rows & ->).
  change (drop 1 (h :: rows)) with rows. intros Hk.
  by rewrite write_row_data.
Qed.

(** [resetSlug] in terms of the data rows. *)
Lemma reset_data s ss :
  match list_find (matches (SStr s)) (data_rows ss) with
  | Some (k, r) =>
      data_rows (Apps.resetSlug (SStr s) ss).2 =
      <[k := Row (colA r) zero zero zero]> (data_rows ss)
  | None => data_rows (Apps.resetSlug (SStr s) ss).2 = data_rows ss
  end.
Proof.
  rewrite resetSlug_eq, drop_boot. unfold first_row. cbn [snd].
  destruct (list_find (matches (SStr s)) (data_rows ss)) as [[k r]|] eqn:E;
    cbn [fmap option_fmap option_map fst].
  - pose proof E as (Hk & _ & _)%list_find_Some.
    rewrite data_rows_write_row by (by eapply lookup_lt_Some).
    exact (alter_insert (λ r0, Row (colA r0) zero zero zero) k _ r Hk).
  - apply data_rows_boot.
Qed.



Lemma reading_data ss ss' s f :
  data_rows ss' = data_rows ss → reading ss' s f = reading ss s f.
Proof. intros H. by rewrite !reading_eq, H. Qed.

Lemma list_find_insert_other {A} (P : A → Prop) `{!∀ x, Decision (P x)} k x x' (l : list A) :
  l !! k = Some x → ¬ P x → ¬ P x' →
  list_find P (<[k := x']> l) = list_find P l.
Proof.
  revert k. induction l as [|y l IH]; intros k Hk Hx Hx'; [done|].
  destruct k as [|k]; cbn in *.
  - injection Hk as ->. by rewrite !decide_False.
  - destruct (decide (P y)); [done|]. f_equal. by apply IH.
Qed.

(** Readings after a data row of slug [s] has been replaced by a row with
    the same first cell. *)
Lemma reading_update ss ss' s k r r' :
  list_find (matches (SStr s)) (data_rows ss) = Some (k, r) →
  colA r' = colA r →
  data_rows ss' = <[k := r']> (data_rows ss) →
  ∀ s' g, reading ss' s' g =
          if decide (s' = s) then or0 (get_col (column g) r') else reading ss s' g.
Proof.
  intros Hf HA Hd s' g. rewrite !reading_eq, Hd.
  pose proof Hf as (Hk & Hm & _)%list_find_Some.
  destruct (decide (s' = s)) as [->|Hne].
  - by rewrite (list_find_insert_same _ _ _ _ _ Hf HA).
  - apply matches_SStr in Hm.
    rewrite (list_find_insert_other _ k r r'); [done|done| |].
    + rewrite matches_SStr. congruence.
    + rewrite matches_SStr, HA. congruence.
Qed.

(** ** The entry points of [apps.js] *)

Lemma try_catch_Ok {A} (m : M A) h ss a ss' :
  m ss = (Ok a, ss') → try_catch m h ss = (Ok a, ss').
Proof. intros H. unfold try_catch. by rewrite H. Qed.

Lemma respond_Ok m ss c ss' :
  m ss = (Ok c, ss') → respond m ss = (Ok (createJsonResponse (Result c)), ss').
Proof. intros H. unfold respond, bind. by rewrite H. Qed.

(** A handler that answers with an error payload makes the whole block
    return. *)
Lemma try_catch_returns (m : M TextOutput) ss :
  ∃ out ss',
    try_catch m (λ error, ret (error_response (toString error))) ss = (Ok out, ss').
Proof.
  unfold try_catch. destruct (m ss) as [[out|e] ss']; unfold ret; eauto.
Qed.

Lemma request_slug_string ev : ∃ s, request_slug ev = SStr s.
Proof.
  unfold request_slug, param. destruct (parameter ev !! "slug") as [s|]; cbn; [|eauto].
  destruct (negb _); eauto.
Qed.

Lemma request_action_string ev : ∃ a, request_action ev = SStr a.
Proof.
  unfold request_action, param. destruct (parameter ev !! "action") as [s|]; cbn; [|eauto].
  destruct (negb _); eauto.
Qed.

Lemma invalid_field_test field :
  negb (truthy_value field) || negb (includes_field field) = negb (includes_field field).
Proof.
  destruct (includes_field field) eqn:E; [|by rewrite orb_true_r].
  apply includes_field_true in E as [f ->]. by rewrite truthy_field_of.
Qed.

(** [bump_] of [apps.js] returns on a string slug and a valid field. *)
Lemma apps_bump_returns s f ss :
  ∃ c ss', Apps.bump_ (SStr s) (field_of f) ss = (Ok c, ss').
Proof. destruct (bump_data s f ss) as (k & r & ss' & _ & Hb & _). eauto. Qed.

Lemma doGet_undefined ss :
  Apps.doGet None ss =
  (Ok (error_response "TypeError: Cannot read properties of undefined (reading 'parameter')"), ss).
Proof. done. Qed.

Lemma doGet_get ev ss :
  request_action ev = SStr "get" →
  Apps.doGet (Some ev) ss = respond (Apps.readCounts_ (request_slug ev)) ss.
Proof.
  intros Ha. unfold Apps.doGet. fold (request_action ev) (request_slug ev).
  rewrite Ha. cbn [strict_eq_string String.eqb Ascii.eqb Bool.eqb].
  destruct (apps_readCounts_returns (request_slug ev) ss) as [c Hc].
  erewrite try_catch_Ok; [|by apply respond_Ok]. symmetry. by apply respond_Ok.
Qed.

Lemma doGet_bump ev f ss :
  request_action ev = SStr "bump" →
  param ev "field" = field_of f →
  Apps.doGet (Some ev) ss = respond (Apps.bump_ (request_slug ev) (field_of f)) ss.
Proof.
  intros Ha Hf. unfold Apps.doGet. fold (request_action ev) (request_slug ev).
  rewrite Ha, Hf. cbn [strict_eq_string String.eqb Ascii.eqb Bool.eqb].
  rewrite invalid_field_test, includes_field_of. cbn [negb].
  destruct (request_slug_string ev) as [s ->].
  destruct (apps_bump_returns s f ss) as (c & ss' & Hb).
  erewrite try_catch_Ok; [|by apply respond_Ok]. symmetry. by apply respond_Ok.
Qed.

Lemma doGet_bump_invalid ev ss :
  request_action ev = SStr "bump" →
  includes_field (param ev "field") = false →
  Apps.doGet (Some ev) ss =
  (Ok (error_response "Invalid or missing field parameter. Must be: likes, dislikes, or infos"), ss).
Proof.
  intros Ha Hf. unfold Apps.doGet. fold (request_action ev) (request_slug ev).
  rewrite Ha. cbn [strict_eq_string String.eqb Ascii.eqb Bool.eqb].
  by rewrite invalid_field_test, Hf.
Qed.

Lemma doGet_unknown ev a ss :
  request_action ev = SStr a → a ≠ "get" → a ≠ "bump" →
  Apps.doGet (Some ev) ss =
  (Ok (error_response ("Unknown action: " +:+ a +:+ ". Valid actions are: get, bump")), ss).
Proof.
  intros Ha Hg Hb. unfold Apps.doGet. fold (request_action ev) (request_slug ev).
  rewrite Ha. cbn [strict_eq_string].
  destruct (String.eqb_spec "get" a) as [<-|_]; [done|].
  destruct (String.eqb_spec "bump" a) as [<-|_]; [done|]. done.
Qed.

Lemma doPost_undefined ss :
  Apps.doPost None ss =
  (Ok (error_response "TypeError: Cannot read properties of undefined (reading 'parameter')"), ss).
Proof. done. Qed.

Lemma read_prop_object p key : p ≠ PNull → read_prop p key = Ok (prop p key).
Proof. by destruct p. Qed.

(** [doPost] of [apps.js], with the local bindings named. *)
Lemma doPost_unfold ev :
  Apps.doPost (Some ev) =
  try_catch
    (let* pslug := lift (read_prop (apps_payload ev) "slug") in
     let* pfield := lift (read_prop (apps_payload ev) "field") in
     let field := js_or pfield (param ev "field") in
     if negb (truthy_value field) || negb (includes_field field) then
       ret (error_response "Invalid or missing field. Must be: likes, dislikes, or infos")
     else
       respond (Apps.bump_ (or_else pslug (request_slug ev)) field))
    (λ error, ret (error_response (toString error))).
Proof. done. Qed.

Lemma doPost_null ev ss :
  apps_payload ev = PNull →
  Apps.doPost (Some ev) ss =
  (Ok (error_response "TypeError: Cannot read properties of null (reading 'slug')"), ss).
Proof. intros H. rewrite doPost_unfold, H. done. Qed.

Lemma doPost_invalid ev ss :
  apps_payload ev ≠ PNull →
  includes_field (post_field ev) = false →
  Apps.doPost (Some ev) ss =
  (Ok (error_response "Invalid or missing field. Must be: likes, dislikes, or infos"), ss).
Proof.
  intros Hp Hf. rewrite doPost_unfold. unfold try_catch, bind, lift.
  rewrite !read_prop_object by done. fold (post_field ev).
  by rewrite invalid_field_test, Hf.
Qed.

Lemma doPost_bump ev s f ss :
  apps_payload ev ≠ PNull →
  post_field ev = field_of f →
  post_slug ev = SStr s →
  Apps.doPost (Some ev) ss = respond (Apps.bump_ (SStr s) (field_of f)) ss.
Proof.
  intros Hp Hf Hs. rewrite doPost_unfold. unfold try_catch, bind, lift.
  rewrite !read_prop_object by done. fold (post_field ev) (post_slug ev).
  rewrite invalid_field_test, Hf, Hs, includes_field_of. cbn [negb].
  destruct (apps_bump_returns s f ss) as (c & ss' & Hb).
  by rewrite (respond_Ok _ _ _ _ Hb).
Qed.

(** Under [string_slug] the slug of a POST is a string. *)
Lemma post_slug_string ev : string_slug (Some ev) → ∃ s, post_slug ev = SStr s.
Proof.
  unfold string_slug, post_slug. destruct (request_slug_string ev) as [s0 ->].
  destruct (prop (apps_payload ev) "slug") as [| |[b|n|s]]; cbn [or_else]; eauto.
  - intros ->. eauto.
  - intros ->. eauto.
  - intros _. destruct (truthy (SStr s)); eauto.
Qed.

(** ** Sequential use of the store *)

(** What an operation can do to the data rows: nothing, ensure a row, or
    bump a counter; only [Reset] does anything else. *)
Lemma exec_cases o ss :
  admissible o →
  data_rows (exec o ss) = data_rows ss ∨
  (∃ s, exec o ss = Some (ensured (SStr s) ss).2) ∨
  (∃ s f, exec o ss = (Apps.bump_ (SStr s) (field_of f) ss).2) ∨
  is_reset o.
Proof.
  intros Hadm. destruct o as [s|s field|s|[ev|]|[ev|]]; cbn [exec].
  - left. rewrite readCounts_eq. apply data_rows_boot.
  - destruct (colMap field) as [|c|key] eqn:E.
    + right; left. exists s.
      destruct (bump_rejected (SStr s) field ss) as [e ->]; [congruence|done].
    + apply colMap_number in E as (f & -> & _). right; right; left. eauto.
    + right; left. exists s.
      destruct (bump_rejected (SStr s) field ss) as [e ->]; [congruence|done].
  - by right; right; right.
  - destruct (request_action_string ev) as [a Ha].
    destruct (request_slug_string ev) as [s Hs].
    destruct (decide (a = "get")) as [->|Hg].
    { left. rewrite doGet_get by done.
      destruct (apps_readCounts_returns (request_slug ev) ss) as [c Hc].
      rewrite (respond_Ok _ _ _ _ Hc). apply data_rows_boot. }
    destruct (decide (a = "bump")) as [->|Hb].
    + destruct (includes_field (param ev "field")) eqn:Hf.
      * apply includes_field_true in Hf as [f Hf].
        right; right; left. exists s, f.
        rewrite (doGet_bump ev f) by done. rewrite Hs.
        destruct (apps_bump_returns s f ss) as (c & ss' & Hbump).
        by rewrite (respond_Ok _ _ _ _ Hbump), Hbump.
      * left. by rewrite doGet_bump_invalid.
    + left. by rewrite (doGet_unknown ev a).
  - by left.
  - assert (apps_payload ev = PNull ∨ apps_payload ev ≠ PNull) as [Hp|Hp]
      by (destruct (apps_payload ev); [by left|by right|by right]).
    { left. by rewrite doPost_null. }
    destruct (includes_field (post_field ev)) eqn:Hf.
    + apply includes_field_true in Hf as [f Hf].
      destruct (post_slug_string ev Hadm) as [s Hs].
      right; right; left. exists s, f.
      rewrite (doPost_bump ev s f) by done.
      destruct (apps_bump_returns s f ss) as (c & ss' & Hbump).
      by rewrite (respond_Ok _ _ _ _ Hbump), Hbump.
    + left. by rewrite doPost_invalid.
  - by left.
Qed.




(** Readings after a bump: the bumped counter reads one more, every other
    counter of every slug reads as before. *)
Lemma apps_bump_reading s f ss s' g :
  reading (Apps.bump_ (SStr s) (field_of f) ss).2 s' g =
  if decide (s' = s ∧ g = f) then plus1 (reading ss s f) else reading ss s' g.
Proof.
  destruct (bump_data s f ss) as (k & r & ss' & Hf & Hb & Hd & _).
  cbn zeta in *. rewrite Hb. cbn [snd].
  rewrite (reading_update _ ss' s k r _ Hf (set_col_colA _ _ _) Hd).
  rewrite <- !(reading_ensured s ss).
  destruct (decide (s' = s)) as [->|Hs].
  - rewrite get_set_col.
    destruct (decide (g = f)) as [->|Hg].
    + rewrite decide_True, reading_eq, Hf by done. apply or0_plus1.
    + rewrite decide_False, reading_eq, Hf by (by intros [_ ?]). done.
  - rewrite decide_False by (by intros [? _]). done.
Qed.

(** Readings after [resetSlug]: zero for the slug, unchanged for the others. *)
Lemma apps_reset_reading s ss s' g :
  reading (Apps.resetSlug (SStr s) ss).2 s' g =
  if decide (s' = s) then zero else reading ss s' g.
Proof.
  pose proof (reset_data s ss) as H.
  destruct (list_find (matches (SStr s)) (data_rows ss)) as [[k r]|] eqn:E.
  - rewrite (reading_update ss _ s k r (Row (colA r) zero zero zero) E eq_refl H).
    destruct (decide (s' = s)); [|done]. by destruct g.
  - rewrite (reading_data _ _ _ _ H).
    destruct (decide (s' = s)) as [->|]; [|done]. by rewrite reading_eq, E.
Qed.


(** ** A body that cannot be parsed *)

Lemma prop_parameter_payload ev key : prop (parameter_payload ev) key = param ev key.
Proof.
  unfold parameter_payload, prop, param. rewrite lookup_fmap.
  by destruct (parameter ev !! key).
Qed.

Lemma js_or_same v : js_or v v = v.
Proof. unfold js_or. by destruct (truthy_value v). Qed.

Lemma or_else_twice v d : or_else v (or_else v d) = or_else v d.
Proof. destruct v as [| |p]; cbn; try done. by destruct (truthy p) eqn:E; rewrite ?E. Qed.

Lemma apps_payload_malformed ev :
  postData ev = Some Malformed → apps_payload ev = parameter_payload ev.
Proof. unfold apps_payload, parse_body. by intros ->. Qed.

Lemma part000_payload_malformed ev :
  postData ev = Some Malformed → part000_payload (Some ev) = PObject ∅.
Proof. unfold part000_payload, parse_body. by intros ->. Qed.

Lemma post_field_malformed ev :
  postData ev = Some Malformed → post_field ev = param ev "field".
Proof.
  intros H. unfold post_field.
  by rewrite (apps_payload_malformed _ H), prop_parameter_payload, js_or_same.
Qed.

Lemma post_slug_malformed ev :
  postData ev = Some Malformed → post_slug ev = request_slug ev.
Proof.
  intros H. unfold post_slug, request_slug.
  by rewrite (apps_payload_malformed _ H), prop_parameter_payload, or_else_twice.
Qed.

(** ** The entry points of [part_000] *)

Lemma part000_doGet_eq env e :
  Part000.doGet env e =
  respond (Part000.readCounts_ env
             (or_else (match e with Some ev => param ev "slug" | None => Undefined end)
                      (SStr "home"))).
Proof. done. Qed.

Lemma part000_doPost_eq env e :
  part000_payload e ≠ PNull →
  Part000.doPost env e =
  respond (Part000.bump_ env (or_else (prop (part000_payload e) "slug") (SStr "home"))
                         (prop (part000_payload e) "field")).
Proof.
  intros Hp. unfold Part000.doPost. fold (part000_payload e).
  by destruct (part000_payload e).
Qed.

(** [doPost] of [part_000] on a body that cannot be parsed: the payload is
    the empty object, the field is undefined, and [bump_] rejects it. *)
Lemma part000_doPost_unparseable env e ss :
  part000_payload e = PObject ∅ →
  Part000.doPost env e ss = (Throw (Error "Invalid field"), ss).
Proof.
  intros Hp. rewrite part000_doPost_eq by (by rewrite Hp). by rewrite Hp.
Qed.

(** * The claims *)

(** ** C1: an invalid field *)

Lemma ensured_no_row s ss :
  no_row s ss → (ensured (SStr s) ss).2 = boot ss ++ [Row (SStr s) zero zero zero].
Proof.
  intros H. apply no_row_iff in H. unfold ensured, first_row.
  by rewrite drop_boot, H.
Qed.

Lemma length_boot ss : length (boot ss) = S (length (data_rows ss)).
Proof.
  rewrite <- drop_boot. destruct (boot_cons ss) as (h & rows & ->). done.
Qed.

Lemma findRowBySlug_appended s ss :
  no_row s ss →
  (Apps.findRowBySlug_ (SStr s) (Some (boot ss ++ [Row (SStr s) zero zero zero]))).1 =
  Ok (Some (S (length (boot ss)))).
Proof.
  intros H. rewrite <- (ensured_no_row s ss H).
  destruct (ensured_spec s ss) as (h & rows & k & r & He & Hf).
  rewrite findRowBySlug_eq, He. cbn [fst snd]. rewrite boot_Some_cons.
  change (drop 1 (h :: rows)) with rows.
  rewrite scan_first_row. unfold first_row. rewrite Hf. cbn. do 3 f_equal.
  pose proof (f_equal fst He) as H1. cbn [fst] in H1.
  unfold ensured, first_row in H1. apply no_row_iff in H.
  rewrite drop_boot, H in H1. cbn in H1. lia.
Qed.

(** C1, on [apps.js].  The claim fails there: for a slug without a row,
    [bump_] with a field that the column table does not know raises the
    Invalid field error only after [ensureRow_] has appended a zero row for the
    slug, so the store is changed and the slug has a row afterwards. *)
Theorem C1_apps_bump_invalid_field_appends_row s field ss :
  colMap field = CUndefined →
  no_row s ss →
  ∃ e, InvalidField e ∧
       Apps.bump_ (SStr s) field ss =
         (Throw e, Some (boot ss ++ [Row (SStr s) zero zero zero])) ∧
       (Apps.findRowBySlug_ (SStr s) (Some (boot ss ++ [Row (SStr s) zero zero zero]))).1 =
         Ok (Some (S (length (boot ss)))).
Proof.
  intros Hc Hn.
  exists (Error ("Invalid field: " +:+ ToString field +:+ ". Must be likes, dislikes, or infos.")).
  split; [|split].
  - split; reflexivity.
  - rewrite bump_undefined_column by done. by rewrite ensured_no_row.
  - by apply findRowBySlug_appended.
Qed.

Lemma C1_apps_bump_invalid_field_witness :
  colMap (Prim (SStr "invalid")) = CUndefined ∧
  no_row "post-1" None ∧
  ∃ e, InvalidField e ∧
       Apps.bump_ (SStr "post-1") (Prim (SStr "invalid")) None =
         (Throw e, Some (boot None ++ [Row (SStr "post-1") zero zero zero])) ∧
       (Apps.findRowBySlug_ (SStr "post-1")
          (Some (boot None ++ [Row (SStr "post-1") zero zero zero]))).1 =
         Ok (Some (S (length (boot None)))).
Proof.
  split; [reflexivity|]. split; [reflexivity|].
  apply (C1_apps_bump_invalid_field_appends_row "post-1" (Prim (SStr "invalid")) None);
    reflexivity.
Defined.

(** The same call on a fresh spreadsheet, evaluated: the tab ends up with the
    header and a row for the slug. *)
Example apps_bump_invalid_field_fresh :
  Apps.bump_ (SStr "post-1") (Prim (SStr "invalid")) None =
  (Throw (Error "Invalid field: invalid. Must be likes, dislikes, or infos."),
   Some [header; Row (SStr "post-1") zero zero zero]).
Proof. reflexivity. Qed.

(** A field name that the column table inherits is not rejected as invalid:
    the call fails later, in [getRange], again after the row was appended. *)
Example apps_bump_inherited_key :
  Apps.bump_ (SStr "post-1") (Prim (SStr "constructor")) None =
  (Throw (Exception "The parameters don't match the method signature for SpreadsheetApp.Sheet.getRange."),
   Some [header; Row (SStr "post-1") zero zero zero]).
Proof. reflexivity. Qed.

(** [part_000] does what the claim says: the field is checked first. *)
Lemma part000_bump_invalid_keeps_store env s field ss :
  includes_field field = false →
  ∃ e, InvalidField e ∧ Part000.bump_ env (SStr s) field ss = (Throw e, ss).
Proof.
  intros H. exists (Error "Invalid field"). split; [by split|].
  by apply part000_bump_invalid_field.
Qed.

(** ** C2, C3, C6, C7: the store operations *)

(** C2, on [part_000].  The claim fails there: [bump_] with a valid field
    stops in [getSheet_] at the undeclared identifier [metrics]; nothing is
    incremented and nothing is returned. *)
Theorem C2_part000_bump_throws slug f ss :
  Part000.bump_ Part000.globals slug (field_of f) ss = (Throw metrics_undeclared, ss).
Proof. apply part000_bump_valid_throws, part000_metrics_undeclared. Qed.

(** C3, on [part_000].  The claim fails there: [readCounts_] throws on every
    slug and every store, in [findRowBySlug_], whose first statement is the
    call of [getSheet_]. *)
Theorem C3_part000_readCounts_throws slug ss :
  Part000.readCounts_ Part000.globals slug ss = (Throw metrics_undeclared, ss).
Proof. apply part000_readCounts_throws, part000_metrics_undeclared. Qed.

(** C6, on [part_000].  The claim fails there: for a slug that was never
    bumped, neither the read nor the row lookup that should follow it returns;
    both throw, whatever the store. *)
Theorem C6_part000_read_unknown_throws s ss :
  (Part000.readCounts_ Part000.globals (SStr s) ss).1 = Throw metrics_undeclared ∧
  (Part000.findRowBySlug_ Part000.globals (SStr s) ss).1 = Throw metrics_undeclared ∧
  (Part000.readCounts_ Part000.globals (SStr s) ss).2 = ss.
Proof.
  rewrite part000_readCounts_throws, part000_findRowBySlug_throws
    by apply part000_metrics_undeclared.
  done.
Qed.

(** C7, on [part_000].  The claim fails there: [n] bumps followed by a read
    throw, for every [n]. *)
Theorem C7_part000_bumps_then_read_throw n slug f ss :
  (let* _ := times n (Part000.bump_ Part000.globals slug (field_of f)) in
   Part000.readCounts_ Part000.globals slug) ss = (Throw metrics_undeclared, ss).
Proof.
  unfold bind. destruct n as [|n].
  - cbn [times]. unfold ret.
    apply part000_readCounts_throws, part000_metrics_undeclared.
  - by rewrite part000_times_bump_throws by apply part000_metrics_undeclared.
Qed.

(** C7 on [apps.js]: the claim holds.  From a store without a row for the
    slug, [n] bumps make the counter read [n], for [n] up to 2^53. *)
Lemma apps_bump_n_reads_n s f n ss :
  no_row s ss → Z.of_nat n ≤ 2 ^ 53 →
  ∃ ss', times n (Apps.bump_ (SStr s) (field_of f)) ss = (Ok tt, ss') ∧
         reading ss' s f = SNum (Int (Z.of_nat n)).
Proof.
  intros H Hn. apply (apps_bump_times s f n ss 0); [by apply reading_no_row|lia|lia].
Qed.

(** The defect of [part_000] is the identifier alone: where [metrics] is
    declared, its [getSheet_], [findRowBySlug_] and [ensureRow_] are those of
    [apps.js], and the scenario of the specification runs. *)
Lemma part000_getSheet_declared env v ss :
  env !! "metrics" = Some v → Part000.getSheet_ env ss = Apps.getSheet_ ss.
Proof.
  intros H. unfold Part000.getSheet_, Part000.ident, Apps.getSheet_, bind.
  by rewrite H.
Qed.

Lemma part000_findRowBySlug_declared env v slug ss :
  env !! "metrics" = Some v →
  Part000.findRowBySlug_ env slug ss = Apps.findRowBySlug_ slug ss.
Proof.
  intros H. unfold Part000.findRowBySlug_, Apps.findRowBySlug_, bind.
  by rewrite (part000_getSheet_declared env v).
Qed.

Lemma part000_ensureRow_declared env v slug ss :
  env !! "metrics" = Some v →
  Part000.ensureRow_ env slug ss = Apps.ensureRow_ slug ss.
Proof.
  intros H. unfold Part000.ensureRow_, Apps.ensureRow_, bind.
  rewrite (part000_getSheet_declared env v) by done.
  destruct (Apps.getSheet_ ss) as [[[]|e] ss1]; [|done].
  by rewrite (part000_findRowBySlug_declared env v).
Qed.

Example part000_scenario_with_metrics :
  let s1 := Some [header; Row (SStr "home") (SNum (Int 1)) zero zero] in
  let s2 := Some [header; Row (SStr "home") (SNum (Int 1)) (SNum (Int 1)) zero] in
  Part000.bump_ with_metrics (SStr "home") (field_of Likes) None =
    (Ok (Counts (SStr "home") (SNum (Int 1)) zero zero), s1) ∧
  Part000.bump_ with_metrics (SStr "home") (field_of Dislikes) s1 =
    (Ok (Counts (SStr "home") (SNum (Int 1)) (SNum (Int 1)) zero), s2) ∧
  Part000.readCounts_ with_metrics (SStr "home") s2 =
    (Ok (Counts (SStr "home") (SNum (Int 1)) (SNum (Int 1)) zero), s2).
Proof. by vm_compute. Qed.


(** ** C8: the store invariant *)




(** The scenario of the specification, evaluated on [apps.js]. *)
Example apps_scenario_home :
  let s1 := Some [header; Row (SStr "home") (SNum (Int 1)) zero zero] in
  let s2 := Some [header; Row (SStr "home") (SNum (Int 1)) (SNum (Int 1)) zero] in
  Apps.bump_ (SStr "home") (field_of Likes) None =
    (Ok (Counts (SStr "home") (SNum (Int 1)) zero zero), s1) ∧
  Apps.bump_ (SStr "home") (field_of Dislikes) s1 =
    (Ok (Counts (SStr "home") (SNum (Int 1)) (SNum (Int 1)) zero), s2) ∧
  Apps.readCounts_ (SStr "home") s2 =
    (Ok (Counts (SStr "home") (SNum (Int 1)) (SNum (Int 1)) zero), s2).
Proof. by vm_compute. Qed.

(** The other scenario: reading an unknown slug on a fresh spreadsheet
    creates the tab and its header, and no row. *)
Example apps_scenario_nonexistent :
  Apps.readCounts_ (SStr "nonexistent") None =
    (Ok (Counts (SStr "nonexistent") zero zero zero), Some [header]) ∧
  Apps.findRowBySlug_ (SStr "nonexistent") (Some [header]) = (Ok None, Some [header]).
Proof. by vm_compute. Qed.

(** A slug that is not a string never matches a row: every bump appends a
    row, and the counts returned are zeros.  This is why the invariant is
    stated for string slugs. *)
Example apps_bump_numeric_slug :
  let s1 := (Apps.bump_ (SNum (Int 5)) (field_of Likes) None).2 in
  Apps.bump_ (SNum (Int 5)) (field_of Likes) s1 =
  (Ok (Counts (SNum (Int 5)) zero zero zero),
   Some [header;
         Row (SNum (Int 5)) (SNum (Int 1)) zero zero;
         Row (SNum (Int 5)) (SNum (Int 1)) zero zero]).
Proof. by vm_compute. Qed.

(** ** C10: duplicate rows *)



(** With two rows for the slug [a]: the first one is bumped and read back,
    the second one stays as it was. *)
Example apps_bump_duplicated :
  Apps.bump_ (SStr "a") (field_of Likes) duplicated =
  (Ok (Counts (SStr "a") (SNum (Int 2)) zero zero),
   Some [header;
         Row (SStr "a") (SNum (Int 2)) zero zero;
         Row (SStr "b") (SNum (Int 7)) zero zero;
         Row (SStr "a") (SNum (Int 5)) zero zero]).
Proof. by vm_compute. Qed.

(** ** C4, C5, C9: the entry points *)




(** C5, as stated, fails on [part_000]: a POST whose body is not JSON, with
    slug and field in the query string, is not served from the query
    parameters; the request ends in the Invalid field error of [bump_]. *)
Lemma C5_part000_ignores_query :
  Part000.doPost Part000.globals (Some malformed_post) None =
  (Throw (Error "Invalid field"), None).
Proof. by vm_compute. Qed.

(** C5, amended.  For a POST whose body is not JSON: [doPost] of [apps.js]
    takes the query parameters as the payload, always returns, bumps the
    slug of the query string when its field is valid and answers with an
    error payload when it is not; [doPost] of [part_000] takes the empty
    object instead, so that the slug is [home], the field is undefined and
    [bump_] raises Invalid field, which nothing catches. *)
Theorem C5_unparseable_body ev :
  postData ev = Some Malformed →
  (apps_payload ev = parameter_payload ev ∧
   post_slug ev = request_slug ev ∧
   post_field ev = param ev "field" ∧
   (∀ ss, ∃ out ss', Apps.doPost (Some ev) ss = (Ok out, ss')) ∧
   (∀ f ss, param ev "field" = field_of f →
      Apps.doPost (Some ev) ss = respond (Apps.bump_ (request_slug ev) (field_of f)) ss) ∧
   (∀ ss, includes_field (param ev "field") = false →
      Apps.doPost (Some ev) ss =
      (Ok (error_response "Invalid or missing field. Must be: likes, dislikes, or infos"), ss))) ∧
  (part000_payload (Some ev) = PObject ∅ ∧
   ∀ env ss, Part000.doPost env (Some ev) ss = (Throw (Error "Invalid field"), ss)).
Proof.
  intros Hm.
  pose proof (apps_payload_malformed _ Hm) as Hp.
  pose proof (post_slug_malformed _ Hm) as Hs.
  pose proof (post_field_malformed _ Hm) as Hf.
  assert (apps_payload ev ≠ PNull) as Hnn by (by rewrite Hp).
  split; [repeat split; try done|split].
  - intros ss. apply try_catch_returns.
  - intros f ss Hfield. destruct (request_slug_string ev) as [s Hslug].
    rewrite Hslug. apply doPost_bump; [done|congruence|congruence].
  - intros ss Hfield. apply doPost_invalid; [done|congruence].
  - by apply part000_payload_malformed.
  - intros env ss. apply part000_doPost_unparseable. by apply part000_payload_malformed.
Qed.

Lemma C5_unparseable_body_witness :
  postData malformed_post = Some Malformed ∧
  Apps.doPost (Some malformed_post) None =
    respond (Apps.bump_ (request_slug malformed_post) (field_of Likes)) None ∧
  Part000.doPost Part000.globals (Some malformed_post) None =
    (Throw (Error "Invalid field"), None).
Proof.
  split; [reflexivity|].
  destruct (C5_unparseable_body malformed_post eq_refl)
    as [(_ & _ & _ & _ & Hbump & _) [_ Hpart]].
  split; [apply (Hbump Likes None); reflexivity|apply Hpart].
Defined.

(** C9.  A request without a slug parameter is served for the slug [home]:
    by [doGet] of [apps.js], for a read and for a bump; by [doPost] of
    [apps.js], when neither the payload nor the query string names a slug; by
    [doGet] of [part_000]; and by [doPost] of [part_000], when the payload
    names no slug. *)
Theorem C9_default_slug_home ev :
  parameter ev !! "slug" = None →
  (request_action ev = SStr "get" →
     ∀ ss, Apps.doGet (Some ev) ss = respond (Apps.readCounts_ (SStr "home")) ss) ∧
  (request_action ev = SStr "bump" →
     ∀ f ss, param ev "field" = field_of f →
       Apps.doGet (Some ev) ss = respond (Apps.bump_ (SStr "home") (field_of f)) ss) ∧
  (apps_payload ev ≠ PNull → prop (apps_payload ev) "slug" = Undefined →
     ∀ f ss, post_field ev = field_of f →
       Apps.doPost (Some ev) ss = respond (Apps.bump_ (SStr "home") (field_of f)) ss) ∧
  (∀ env, Part000.doGet env (Some ev) = respond (Part000.readCounts_ env (SStr "home"))) ∧
  (part000_payload (Some ev) ≠ PNull →
   prop (part000_payload (Some ev)) "slug" = Undefined →
     ∀ env, Part000.doPost env (Some ev) =
            respond (Part000.bump_ env (SStr "home")
                       (prop (part000_payload (Some ev)) "field"))).
Proof.
  intros Hno.
  assert (request_slug ev = SStr "home") as Hslug.
  { unfold request_slug, param. by rewrite Hno. }
  split; [|split; [|split; [|split]]].
  - intros Ha ss. by rewrite doGet_get, Hslug.
  - intros Ha f ss Hf. by rewrite (doGet_bump ev f), Hslug.
  - intros Hp Hps f ss Hf. apply doPost_bump; [done|done|].
    unfold post_slug. by rewrite Hps, Hslug.
  - intros env. rewrite part000_doGet_eq. unfold param. by rewrite Hno.
  - intros Hp Hps env. rewrite part000_doPost_eq by done. by rewrite Hps.
Qed.

Lemma C9_default_slug_home_witness :
  parameter bare_request !! "slug" = None ∧
  request_action bare_request = SStr "get" ∧
  Apps.doGet (Some bare_request) None = respond (Apps.readCounts_ (SStr "home")) None ∧
  Part000.doGet Part000.globals (Some bare_request) =
    respond (Part000.readCounts_ Part000.globals (SStr "home")).
Proof.
  split; [reflexivity|]. split; [reflexivity|].
  destruct (C9_default_slug_home bare_request eq_refl) as (Hget & _ & _ & Hpart & _).
  split; [apply (Hget eq_refl None)|apply Hpart].
Defined.

(** * Further properties of the scripts *)

(** ** Helpers *)

Lemma first_row_slugs s rows :
  first_row (SStr s) rows = None ↔ s ∉ row_slug <$> rows.
Proof.
  rewrite first_row_None, Forall_forall. split.
  - intros H Hin. apply list_elem_of_fmap in Hin as (r & -> & Hr).
    apply (H r Hr). by apply matches_SStr.
  - intros H r Hr Hm. apply H. apply list_elem_of_fmap. exists r.
    split; [|done]. symmetry. by apply matches_SStr.
Qed.

Lemma first_row_not_string slug rows : not_string slug → first_row slug rows = None.
Proof.
  intros Hns. apply first_row_None, Forall_forall. intros r _.
  unfold matches. by destruct slug.
Qed.

Lemma readCounts_again slug ss c ss1 :
  Apps.readCounts_ slug ss = (Ok c, ss1) → Apps.readCounts_ slug ss1 = (Ok c, ss1).
Proof.
  rewrite readCounts_eq. intros [= <- <-].
  by rewrite readCounts_eq, boot_idem.
Qed.

Lemma reading_boot ss s g : reading (Some (boot ss)) s g = reading ss s g.
Proof. apply reading_data, data_rows_boot. Qed.

(** The result of [readCounts_] of [apps.js], field by field. *)
Lemma readCounts_counts s ss :
  ∃ p, String_ p = s ∧
       Apps.readCounts_ (SStr s) ss =
       (Ok (Counts p (reading ss s Likes) (reading ss s Dislikes) (reading ss s Infos)),
        Some (boot ss)).
Proof.
  rewrite !reading_eq, readCounts_eq, drop_boot. unfold first_row.
  destruct (list_find (matches (SStr s)) (data_rows ss)) as [[k r]|] eqn:E; cbn.
  - apply list_find_Some in E as (Hk & Hm & _).
    exists (colA r). split; [by apply matches_SStr|].
    by rewrite (row_at_boot _ _ _ Hk).
  - by exists (SStr s).
Qed.

(** The result of [bump_] of [apps.js], field by field. *)
Lemma bump_counts s f ss :
  ∃ p ss1, String_ p = s ∧
    Apps.bump_ (SStr s) (field_of f) ss =
    (Ok (Counts p (reading ss1 s Likes) (reading ss1 s Dislikes) (reading ss1 s Infos)), ss1) ∧
    Apps.readCounts_ (SStr s) ss1 =
    (Ok (Counts p (reading ss1 s Likes) (reading ss1 s Dislikes) (reading ss1 s Infos)), ss1).
Proof.
  rewrite bump_eq. destruct (ensured (SStr s) ss) as [r sh]. cbn zeta.
  set (w := Some (write_row r _ sh)).
  destruct (readCounts_counts s w) as (p & Hp & Hr).
  exists p, (Some (boot w)). split; [done|].
  rewrite !reading_boot. split; [done|].
  pose proof (readCounts_again _ _ _ _ Hr) as H2. exact H2.
Qed.

Lemma only_string_reads_test p : String_ p = "test" → p = SStr "test".
Proof.
  destruct p as [[]|[z|]|s]; cbn; try done.
  - intros H. apply String_number_head in H. discriminate.
  - by intros ->.
Qed.

(** ** The tab and its rows *)

(** X1.  [getSheet_] of [apps.js] always returns.  A tab that has a row is
    left as it is; a missing or empty tab ends up holding the header alone.
    The data rows are never touched, and a second call changes nothing. *)
Theorem X1_getSheet_header_once ss :
  ∃ ss1,
    Apps.getSheet_ ss = (Ok tt, ss1) ∧
    Apps.getSheet_ ss1 = (Ok tt, ss1) ∧
    data_rows ss1 = data_rows ss ∧
    (the_sheet ss = [] → ss1 = Some [header]) ∧
    (the_sheet ss ≠ [] → ss1 = Some (the_sheet ss)).
Proof.
  exists (Some (boot ss)). rewrite !getSheet_eq, boot_idem.
  split; [done|]. split; [done|]. split; [apply data_rows_boot|].
  unfold boot. destruct (the_sheet ss); by split.
Qed.

(** X2.  [findRowBySlug_] of [apps.js] answers the number of the first data
    row whose first cell, converted by [String], is the slug (a number cell
    by the numeral JavaScript prints for it: the exponent form from 10^21
    on): a number from 2 on, the first row of the tab never being examined;
    it answers [null] exactly when no data row stands for the slug.  It
    leaves the data rows alone. *)
Theorem X2_findRowBySlug_first_match s ss :
  ∃ found ss1,
    Apps.findRowBySlug_ (SStr s) ss = (Ok found, ss1) ∧
    data_rows ss1 = data_rows ss ∧
    match found with
    | Some n =>
        ∃ k r, n = (k + 2)%nat ∧ data_rows ss !! k = Some r ∧ row_slug r = s ∧
               ∀ j y, data_rows ss !! j = Some y → (j < k)%nat → row_slug y ≠ s
    | None => s ∉ slugs ss
    end.
Proof.
  eexists _, _. rewrite findRowBySlug_eq. split; [done|].
  split; [apply data_rows_boot|].
  rewrite scan_first_row, drop_boot.
  destruct (first_row (SStr s) (data_rows ss)) as [k|] eqn:E; cbn.
  - apply first_row_Some in E as [r Hr].
    apply list_find_Some in Hr as (Hk & Hm & Hfirst).
    exists k, r. split; [lia|]. split; [done|]. split; [by apply matches_SStr|].
    intros j y Hj Hlt Hy. apply (Hfirst j y Hj Hlt). by apply matches_SStr.
  - by apply first_row_slugs.
Qed.

(** A number in the slug cell is compared by its numeral: 5 is found under
    the slug [5], and the double 10^21 under [1e+21], not under its 22
    digits. *)
Example findRowBySlug_number_cell :
  let ss := Some [header;
                  Row (SNum (Int 5)) zero zero zero;
                  Row (SNum (Int (10 ^ 21))) zero zero zero] in
  Apps.findRowBySlug_ (SStr "5") ss = (Ok (Some 2%nat), ss) ∧
  Apps.findRowBySlug_ (SStr "1e+21") ss = (Ok (Some 3%nat), ss) ∧
  Apps.findRowBySlug_ (SStr "1000000000000000000000") ss = (Ok None, ss).
Proof. by vm_compute. Qed.

(** X3.  [ensureRow_] of [apps.js], for a string slug, returns a row number
    from 2 on; afterwards [findRowBySlug_] answers that number, and a second
    [ensureRow_] answers it too and changes nothing.  The data rows are the
    old ones, followed by one zero row for the slug when it had none. *)
Theorem X3_ensureRow_then_find s ss :
  ∃ n ss1,
    Apps.ensureRow_ (SStr s) ss = (Ok n, ss1) ∧
    (2 ≤ n)%nat ∧
    Apps.findRowBySlug_ (SStr s) ss1 = (Ok (Some n), ss1) ∧
    Apps.ensureRow_ (SStr s) ss1 = (Ok n, ss1) ∧
    data_rows ss1 =
      if decide (s ∈ slugs ss) then data_rows ss
      else data_rows ss ++ [Row (SStr s) zero zero zero].
Proof.
  destruct (ensured_spec s ss) as (h & rows & k & r & He & Hf).
  exists (S (S k)), (Some (h :: rows)).
  assert (first_row (SStr s) rows = Some k) as Hfr by (unfold first_row; by rewrite Hf).
  split; [by rewrite ensureRow_eq, He|]. split; [lia|]. split; [|split].
  - rewrite findRowBySlug_eq, boot_Some_cons.
    change (drop 1 (h :: rows)) with rows.
    rewrite scan_first_row, Hfr. cbn. by rewrite Nat.add_1_r.
  - rewrite ensureRow_eq. unfold ensured. rewrite boot_Some_cons.
    change (drop 1 (h :: rows)) with rows. by rewrite Hfr.
  - pose proof (ensured_data (SStr s) ss) as Hd. rewrite He in Hd. cbn [snd] in Hd.
    etrans; [exact Hd|]. unfold slugs.
    destruct (first_row (SStr s) (data_rows ss)) eqn:E.
    + rewrite decide_True; [done|].
      destruct (decide (s ∈ row_slug <$> data_rows ss)) as [|Hn]; [done|].
      apply first_row_slugs in Hn. congruence.
    + apply first_row_slugs in E. by rewrite decide_False.
Qed.

(** X4.  [readCounts_] of [apps.js] returns for every slug and store, leaves
    the data rows as they are (no row is created, also for a slug with a
    row), and a second read gives the same result and changes nothing.  For
    a string slug the result carries what the first row of the slug holds,
    or the slug itself and zeros. *)
Theorem X4_readCounts_reads_only slug ss :
  ∃ c ss1,
    Apps.readCounts_ slug ss = (Ok c, ss1) ∧
    data_rows ss1 = data_rows ss ∧
    Apps.readCounts_ slug ss1 = (Ok c, ss1) ∧
    match list_find (matches slug) (data_rows ss) with
    | Some (_, r) => c = counts_of_row r
    | None => c = Counts slug zero zero zero
    end.
Proof.
  eexists _, _. split; [apply readCounts_eq|].
  split; [apply data_rows_boot|]. split.
  - by rewrite readCounts_eq, boot_idem.
  - rewrite drop_boot. unfold first_row.
    destruct (list_find (matches slug) (data_rows ss)) as [[k r]|] eqn:E; cbn; [|done].
    apply list_find_Some in E as (Hk & _). by rewrite (row_at_boot _ _ _ Hk).
Qed.

(** ** Bumps and resets *)

(** X5.  [bump_] of [apps.js], for a string slug and a valid field, returns
    on every store, whatever the cells hold.  The bumped counter then reads
    [old + 1] in the sense of JavaScript (for a number the sum as doubles
    add, so one more below 2^53 and the nearest double from there on, 2^53
    itself staying as it is; 1 after a blank, [0], [false] or [NaN]; 2 after
    [true]; the text followed by the character 1 after a text); every other counter of every slug reads as
    before; the result is what [readCounts_] then reads, and reading again
    changes nothing. *)
Theorem X5_bump_readings s f ss :
  ∃ c ss1,
    Apps.bump_ (SStr s) (field_of f) ss = (Ok c, ss1) ∧
    reading ss1 s f = plus1 (reading ss s f) ∧
    (∀ s' g, (s', g) ≠ (s, f) → reading ss1 s' g = reading ss s' g) ∧
    (∀ g, get_count g c = reading ss1 s g) ∧
    Apps.readCounts_ (SStr s) ss1 = (Ok c, ss1).
Proof.
  destruct (bump_counts s f ss) as (p & ss1 & Hp & Hb & Hr).
  eexists _, ss1. split; [exact Hb|].
  pose proof (apps_bump_reading s f ss) as H. rewrite Hb in H. cbn [snd] in H.
  split; [|split; [|split]].
  - rewrite H. by rewrite decide_True.
  - intros s' g Hne. rewrite H. rewrite decide_False; [done|].
    intros [-> ->]. by apply Hne.
  - by intros [].
  - exact Hr.
Qed.

(** X6.  [n] bumps of one counter in a row, on [apps.js], from a store in
    which it reads an integer [m] between -2^53 and 2^53: all return, the
    counter reads [m + n] as long as that is at most 2^53 and 2^53 from
    there on (adding one to the double 2^53 gives 2^53), and every other
    counter of every slug reads as before. *)
Theorem X6_bump_times_adds_n s f n ss m :
  reading ss s f = SNum (Int m) →
  - 2 ^ 53 ≤ m ≤ 2 ^ 53 →
  ∃ ss1,
    times n (Apps.bump_ (SStr s) (field_of f)) ss = (Ok tt, ss1) ∧
    reading ss1 s f = SNum (Int (Z.min (m + Z.of_nat n) (2 ^ 53))) ∧
    ∀ s' g, (s', g) ≠ (s, f) → reading ss1 s' g = reading ss s' g.
Proof.
  revert ss m. induction n as [|n IH]; intros ss m Hm Hbound.
  - exists ss. split; [done|]. split; [|done]. rewrite Hm. do 2 f_equal. lia.
  - destruct (bump_counts s f ss) as (p & ss1 & _ & Hb & _).
    pose proof (apps_bump_reading s f ss) as H. rewrite Hb in H. cbn [snd] in H.
    assert (reading ss1 s f = SNum (Int (Z.min (m + 1) (2 ^ 53)))) as H1.
    { rewrite H, decide_True, Hm by done.
      destruct (decide (m = 2 ^ 53)) as [->|Hne].
      - rewrite plus1_top. do 2 f_equal.
      - rewrite plus1_small by lia. do 2 f_equal. lia. }
    destruct (IH ss1 _ H1) as (ss2 & Ht & Hr & Hframe); [lia|].
    exists ss2. split; [|split].
    + cbn [times]. unfold bind. by rewrite Hb.
    + rewrite Hr. do 2 f_equal. lia.
    + intros s' g Hne. rewrite (Hframe s' g Hne), H.
      rewrite decide_False; [done|]. intros [-> ->]. by apply Hne.
Qed.

Lemma X6_bump_times_witness :
  reading None "home" Likes = SNum (Int 0) ∧
  ∃ ss1,
    times 3 (Apps.bump_ (SStr "home") (field_of Likes)) None = (Ok tt, ss1) ∧
    reading ss1 "home" Likes = SNum (Int (Z.min (0 + Z.of_nat 3) (2 ^ 53))) ∧
    ∀ s' g, (s', g) ≠ ("home", Likes) → reading ss1 s' g = reading None s' g.
Proof.
  split; [reflexivity|].
  apply (X6_bump_times_adds_n "home" Likes 3 None 0); [reflexivity|lia].
Defined.

(** At 2^53 a bump changes nothing: the next double is 2^53 + 2. *)
Example apps_bump_at_2_53 :
  let ss := Some [header; Row (SStr "home") (SNum (Int (2 ^ 53))) zero zero] in
  Apps.bump_ (SStr "home") (field_of Likes) ss =
  (Ok (Counts (SStr "home") (SNum (Int (2 ^ 53))) zero zero), ss).
Proof. by vm_compute. Qed.

(** X7.  Two bumps on [apps.js] can be made in either order: whatever the
    slugs and the fields, every counter of every slug reads the same
    afterwards. *)
Theorem X7_bumps_commute s1 f1 s2 f2 ss s g :
  reading (Apps.bump_ (SStr s2) (field_of f2) (Apps.bump_ (SStr s1) (field_of f1) ss).2).2 s g =
  reading (Apps.bump_ (SStr s1) (field_of f1) (Apps.bump_ (SStr s2) (field_of f2) ss).2).2 s g.
Proof.
  rewrite !apps_bump_reading.
  repeat case_decide; destruct_and?; simplify_eq; try done; exfalso; naive_solver.
Qed.

Lemma bump_not_string slug f ss :
  not_string slug →
  Apps.findRowBySlug_ slug ss = (Ok None, Some (boot ss)) ∧
  Apps.bump_ slug (field_of f) ss =
  (Ok (Counts slug zero zero zero),
   Some (boot ss ++ [set_col (column f) (SNum (Int 1)) (Row slug zero zero zero)])).
Proof.
  intros Hns. split.
  - by rewrite findRowBySlug_eq, scan_first_row, first_row_not_string.
  - rewrite bump_eq. unfold ensured. rewrite first_row_not_string by done.
    assert (write_row (S (length (boot ss)))
              (set_col (column f)
                 (plus1 (or0 (get_col (column f)
                    (row_at (S (length (boot ss)))
                       (boot ss ++ [Row slug zero zero zero]))))))
              (boot ss ++ [Row slug zero zero zero]) =
            boot ss ++ [set_col (column f) (SNum (Int 1)) (Row slug zero zero zero)]) as ->.
    { unfold write_row, row_at. cbn [pred]. rewrite length_app. cbn [length].
      replace (S (length (boot ss)) - (length (boot ss) + 1))%nat with 0%nat by lia.
      cbn [replicate]. rewrite app_nil_r. unfold sheet.
      rewrite list_lookup_middle by done. cbn [default].
      rewrite alter_app_r_alt by done. rewrite Nat.sub_diag. cbn. by destruct f. }
    rewrite readCounts_eq. destruct (boot_cons ss) as (h & rows & ->).
    cbn [app]. rewrite boot_Some_cons. by rewrite first_row_not_string.
Qed.

(** X8.  A slug that is not a string (a number or a boolean) is never found
    by [findRowBySlug_] of [apps.js], since the comparison is strict.  So
    [bump_] appends a new row for it on every call, writes 1 into that row,
    and returns zeros. *)
Theorem X8_non_string_slug_never_found slug f ss :
  not_string slug →
  Apps.findRowBySlug_ slug ss = (Ok None, Some (boot ss)) ∧
  Apps.bump_ slug (field_of f) ss =
  (Ok (Counts slug zero zero zero),
   Some (boot ss ++ [set_col (column f) (SNum (Int 1)) (Row slug zero zero zero)])).
Proof. apply bump_not_string. Qed.

Lemma X8_non_string_slug_witness :
  not_string (SNum (Int 5)) ∧
  Apps.findRowBySlug_ (SNum (Int 5)) None = (Ok None, Some (boot None)) ∧
  Apps.bump_ (SNum (Int 5)) (field_of Likes) None =
  (Ok (Counts (SNum (Int 5)) zero zero zero),
   Some (boot None ++
         [set_col (column Likes) (SNum (Int 1)) (Row (SNum (Int 5)) zero zero zero)])).
Proof.
  split; [exact I|].
  apply (X8_non_string_slug_never_found (SNum (Int 5)) Likes None). exact I.
Defined.

Lemma slugs_update ss ss1 k r r' :
  data_rows ss !! k = Some r → colA r' = colA r →
  data_rows ss1 = <[k := r']> (data_rows ss) →
  slugs ss1 = slugs ss.
Proof.
  intros Hk HA Hd. unfold slugs. rewrite Hd, list_fmap_insert.
  apply list_insert_id. rewrite list_lookup_fmap, Hk. cbn. unfold row_slug.
  by rewrite HA.
Qed.

Lemma reset_slugs s ss : slugs (Apps.resetSlug (SStr s) ss).2 = slugs ss.
Proof.
  pose proof (reset_data s ss) as Hd.
  destruct (list_find (matches (SStr s)) (data_rows ss)) as [[k r]|] eqn:Ef.
  - apply list_find_Some in Ef as (Hk & _).
    by apply (slugs_update ss _ k r (Row (colA r) zero zero zero)).
  - unfold slugs. by rewrite Hd.
Qed.

(** X9.  [resetSlug] of [apps.js], for a string slug, always returns.  It
    removes no row, appends none and rewrites no slug cell.  When the slug
    has a row, the counters of its first row become 0, so that all three
    then read 0, and every other row stays as it was; when it has none, the
    data rows are unchanged.  The counters of every other slug read as
    before, and a second reset changes nothing. *)
Theorem X9_resetSlug_zeroes_first_row s ss :
  ∃ ss1,
    Apps.resetSlug (SStr s) ss = (Ok tt, ss1) ∧
    slugs ss1 = slugs ss ∧
    match list_find (matches (SStr s)) (data_rows ss) with
    | Some (k, r) => data_rows ss1 = <[k := Row (colA r) zero zero zero]> (data_rows ss)
    | None => data_rows ss1 = data_rows ss
    end ∧
    (∀ g, reading ss1 s g = zero) ∧
    (∀ s' g, s' ≠ s → reading ss1 s' g = reading ss s' g) ∧
    Apps.resetSlug (SStr s) ss1 = (Ok tt, ss1).
Proof.
  pose proof (reset_data s ss) as Hd.
  pose proof (λ s' g, apps_reset_reading s ss s' g) as Hr.
  pose proof (resetSlug_eq (SStr s) ss) as He.
  destruct (Apps.resetSlug (SStr s) ss) as [o ss1] eqn:E. cbn [snd] in *.
  injection He as -> Hss1. exists ss1. split; [done|].
  split; [|split; [exact Hd|split; [|split]]].
  - pose proof (reset_slugs s ss) as Hs. by rewrite E in Hs.
  - intros g. by rewrite Hr, decide_True.
  - intros s' g Hne. by rewrite Hr, decide_False.
  - rewrite resetSlug_eq. f_equal. rewrite Hss1 at 2. f_equal.
    rewrite Hss1. rewrite !drop_boot.
    destruct (first_row (SStr s) (data_rows ss)) as [k|] eqn:Ef.
    + apply first_row_Some in Ef as [r Hfr].
      pose proof Hfr as (Hk & _)%list_find_Some.
      assert (k < length (data_rows ss))%nat as Hlt by (by eapply lookup_lt_Some).
      rewrite <- (drop_boot ss) in Hlt.
      destruct (boot_cons ss) as (h & rows & Hb). rewrite Hb in *.
      change (drop 1 (h :: rows)) with rows in Hlt.
      rewrite write_row_data by done. rewrite boot_Some_cons, data_rows_cons.
      rewrite first_row_alter by done.
      rewrite <- (drop_boot ss), Hb in Hfr. change (drop 1 (h :: rows)) with rows in Hfr.
      unfold first_row. rewrite Hfr. cbn [fmap option_fmap option_map fst].
      rewrite write_row_data by (by rewrite length_alter).
      f_equal. rewrite list_alter_alter_eq. by apply list_alter_ext.
    + rewrite boot_idem, data_rows_boot, Ef. done.
Qed.

(** X10.  No operation of [apps.js] removes a row or rewrites a slug cell:
    after a read, a bump (with any field value), a reset, a GET or a POST,
    the slugs of the data rows are the old ones, in the same order, followed
    by at most one new slug. *)
Theorem X10_rows_only_appended o ss :
  admissible o →
  slugs ss `prefix_of` slugs (exec o ss) ∧
  (length (slugs (exec o ss)) ≤ S (length (slugs ss)))%nat.
Proof.
  intros Hadm.
  assert (∀ s, slugs ss `prefix_of` slugs (Some (ensured (SStr s) ss).2) ∧
               (length (slugs (Some (ensured (SStr s) ss).2)) ≤ S (length (slugs ss)))%nat)
    as Hens.
  { intros s. unfold slugs. rewrite ensured_data.
    destruct (first_row (SStr s) (data_rows ss)); [split; [done|lia]|].
    rewrite fmap_app, length_app. split; [by apply prefix_app_r|cbn; lia]. }
  destruct (exec_cases o ss Hadm) as [H|[[s ->]|[(s & f & ->)|H]]].
  - unfold slugs. rewrite H. split; [done|lia].
  - apply Hens.
  - destruct (bump_data s f ss) as (k & r & ss1 & Hf & Hb & Hd & _). cbn zeta in *.
    rewrite Hb. cbn [snd]. apply list_find_Some in Hf as (Hk & _).
    rewrite (slugs_update _ ss1 k r _ Hk (set_col_colA _ _ _) Hd). apply Hens.
  - destruct o as [| |s| |]; try done. cbn [exec].
    rewrite reset_slugs. split; [done|lia].
Qed.

Lemma X10_rows_only_appended_witness :
  admissible (OpBump "home" (Prim (SStr "bogus"))) ∧
  slugs None `prefix_of` slugs (exec (OpBump "home" (Prim (SStr "bogus"))) None) ∧
  (length (slugs (exec (OpBump "home" (Prim (SStr "bogus"))) None)) ≤ S (length (slugs None)))%nat.
Proof.
  split; [exact I|].
  apply (X10_rows_only_appended (OpBump "home" (Prim (SStr "bogus"))) None). exact I.
Defined.

Lemma slugs_ensured s ss :
  slugs (Some (ensured (SStr s) ss).2) =
  if decide (s ∈ slugs ss) then slugs ss else slugs ss ++ [s].
Proof.
  unfold slugs. rewrite ensured_data.
  destruct (first_row (SStr s) (data_rows ss)) eqn:E.
  - rewrite decide_True; [done|].
    destruct (decide (s ∈ row_slug <$> data_rows ss)) as [|Hn]; [done|].
    apply first_row_slugs in Hn. congruence.
  - apply first_row_slugs in E. rewrite decide_False by done.
    by rewrite fmap_app.
Qed.

(** X11.  No operation of [apps.js] gives a slug a second row: if no two
    data rows stand for the same slug before a read, a bump, a reset, a GET
    or a POST, none do afterwards, whatever the counter cells hold. *)
Theorem X11_slugs_stay_unique o ss :
  admissible o → NoDup (slugs ss) → NoDup (slugs (exec o ss)).
Proof.
  intros Hadm Hnd.
  assert (∀ s, NoDup (slugs (Some (ensured (SStr s) ss).2))) as Hens.
  { intros s. rewrite slugs_ensured. case_decide; [done|].
    apply NoDup_app. split; [done|]. split; [|apply NoDup_singleton].
    intros x Hx Hs. apply list_elem_of_singleton in Hs. by subst. }
  destruct (exec_cases o ss Hadm) as [H|[[s ->]|[(s & f & ->)|H]]].
  - unfold slugs. by rewrite H.
  - apply Hens.
  - destruct (bump_data s f ss) as (k & r & ss1 & Hf & Hb & Hd & _). cbn zeta in *.
    rewrite Hb. cbn [snd]. apply list_find_Some in Hf as (Hk & _).
    rewrite (slugs_update _ ss1 k r _ Hk (set_col_colA _ _ _) Hd). apply Hens.
  - destruct o as [| |s| |]; try done. cbn [exec]. by rewrite reset_slugs.
Qed.

Lemma X11_slugs_stay_unique_witness :
  admissible (OpPost (Some (bump_post "a" "likes"))) ∧
  NoDup (slugs (Some [header; Row (SStr "b") blank (SStr "many") zero])) ∧
  NoDup (slugs (exec (OpPost (Some (bump_post "a" "likes")))
                  (Some [header; Row (SStr "b") blank (SStr "many") zero]))).
Proof.
  assert (NoDup (slugs (Some [header; Row (SStr "b") blank (SStr "many") zero]))) as H.
  { apply NoDup_singleton. }
  split; [exact I|]. split; [exact H|].
  apply (X11_slugs_stay_unique (OpPost (Some (bump_post "a" "likes")))
           (Some [header; Row (SStr "b") blank (SStr "many") zero]) I H).
Defined.

(** ** Requests *)

(** X12.  On [apps.js] a bump asked by GET ([action=bump] with slug and
    field in the query string) and a bump asked by POST that resolve to the
    same string slug and the same valid field are served alike: the same
    response and the same store, those of [bump_]. *)
Theorem X12_get_bump_same_as_post evg evp s f ss :
  request_action evg = SStr "bump" →
  request_slug evg = SStr s →
  param evg "field" = field_of f →
  apps_payload evp ≠ PNull →
  post_slug evp = SStr s →
  post_field evp = field_of f →
  Apps.doGet (Some evg) ss = Apps.doPost (Some evp) ss ∧
  Apps.doPost (Some evp) ss = respond (Apps.bump_ (SStr s) (field_of f)) ss.
Proof.
  intros Ha Hs Hf Hp Hps Hpf.
  rewrite (doGet_bump evg f), Hs by done.
  by rewrite (doPost_bump evp s f).
Qed.

Lemma X12_get_bump_same_as_post_witness :
  request_action (bump_get "intro" "infos") = SStr "bump" ∧
  request_slug (bump_get "intro" "infos") = SStr "intro" ∧
  param (bump_get "intro" "infos") "field" = field_of Infos ∧
  post_slug (bump_post "intro" "infos") = SStr "intro" ∧
  post_field (bump_post "intro" "infos") = field_of Infos ∧
  Apps.doGet (Some (bump_get "intro" "infos")) None =
  Apps.doPost (Some (bump_post "intro" "infos")) None.
Proof.
  repeat (split; [reflexivity|]).
  apply (X12_get_bump_same_as_post (bump_get "intro" "infos") (bump_post "intro" "infos")
           "intro" Infos None); try reflexivity. discriminate.
Defined.

(** X13.  On [apps.js] a GET whose action is absent, empty or [get] is a
    read: the response is the result of [readCounts_] for the slug of the
    query string, an absent or empty slug standing for [home]; the data rows
    are left as they are. *)
Theorem X13_get_reads ev ss :
  parameter ev !! "action" = None ∨
  parameter ev !! "action" = Some "" ∨
  parameter ev !! "action" = Some "get" →
  ∃ c ss1,
    Apps.readCounts_
      (SStr match parameter ev !! "slug" with
            | Some s => if decide (s = "") then "home" else s
            | None => "home"
            end) ss = (Ok c, ss1) ∧
    Apps.doGet (Some ev) ss = (Ok (createJsonResponse (Result c)), ss1) ∧
    data_rows ss1 = data_rows ss.
Proof.
  intros Ha.
  assert (request_action ev = SStr "get") as Hact.
  { unfold request_action, param. by destruct Ha as [->|[->| ->]]. }
  assert (request_slug ev =
          SStr match parameter ev !! "slug" with
               | Some s => if decide (s = "") then "home" else s
               | None => "home"
               end) as Hslug.
  { unfold request_slug, param. destruct (parameter ev !! "slug") as [s|]; [|done].
    cbn. destruct (String.eqb_spec s "") as [->|Hne]; cbn; [done|].
    by rewrite decide_False. }
  rewrite doGet_get, Hslug by done.
  destruct (apps_readCounts_returns
              (SStr match parameter ev !! "slug" with
                    | Some s => if decide (s = "") then "home" else s
                    | None => "home"
                    end) ss) as [c Hc].
  exists c, (Some (boot ss)). split; [done|]. split; [by apply respond_Ok|].
  apply data_rows_boot.
Qed.

Lemma X13_get_reads_witness :
  (parameter (Event {[ "action" := ""; "slug" := "" ]} None) !! "action" = None ∨
   parameter (Event {[ "action" := ""; "slug" := "" ]} None) !! "action" = Some "" ∨
   parameter (Event {[ "action" := ""; "slug" := "" ]} None) !! "action" = Some "get") ∧
  Apps.doGet (Some (Event {[ "action" := ""; "slug" := "" ]} None)) None =
  (Ok (createJsonResponse (Result (Counts (SStr "home") zero zero zero))), Some [header]).
Proof.
  split; [right; left; reflexivity|].
  destruct (X13_get_reads (Event {[ "action" := ""; "slug" := "" ]} None) None)
    as (c & ss1 & Hr & Hg & _); [right; left; reflexivity|].
  rewrite Hg. vm_compute in Hr. injection Hr as <- <-. reflexivity.
Defined.

(** ** [testCounter] *)

(** X14.  [testCounter] of [apps.js] never throws on a store in which the
    three counters of the slug [test] read as integers [a], [b], [c] from
    -2^53 to below 2^53, where adding one is exact (also when the slug has
    no row yet: they read 0).  The five objects it logs are
    the counts before, after each of the three bumps, and at the end:
    [(a, b, c)], [(a+1, b, c)], [(a+1, b+1, c)], and twice
    [(a+1, b+1, c+1)]; the counters of every other slug read as before. *)
Theorem X14_testCounter_logs a b c ss :
  reading ss "test" Likes = SNum (Int a) →
  reading ss "test" Dislikes = SNum (Int b) →
  reading ss "test" Infos = SNum (Int c) →
  - 2 ^ 53 ≤ a < 2 ^ 53 → - 2 ^ 53 ≤ b < 2 ^ 53 → - 2 ^ 53 ≤ c < 2 ^ 53 →
  ∃ l ss1,
    Apps.testCounter ss = (Ok l, ss1) ∧
    length l = 13%nat ∧
    logged_counts l =
      [counts_of (SStr "test") a b c;
       counts_of (SStr "test") (a + 1) b c;
       counts_of (SStr "test") (a + 1) (b + 1) c;
       counts_of (SStr "test") (a + 1) (b + 1) (c + 1);
       counts_of (SStr "test") (a + 1) (b + 1) (c + 1)] ∧
    ∀ s g, s ≠ "test" → reading ss1 s g = reading ss s g.
Proof.
  intros Ha Hb Hc La Lb Lc.
  destruct (readCounts_counts "test" ss) as (p0 & Hp0 & Hr0).
  apply only_string_reads_test in Hp0 as ->.
  set (s0 := Some (boot ss)) in *.
  assert (∀ s g, reading s0 s g = reading ss s g) as H0 by (intros; apply reading_boot).
  destruct (bump_counts "test" Likes s0) as (p1 & s1 & Hp1 & Hb1 & _).
  apply only_string_reads_test in Hp1 as ->.
  pose proof (apps_bump_reading "test" Likes s0) as H1. rewrite Hb1 in H1. cbn [snd] in H1.
  destruct (bump_counts "test" Dislikes s1) as (p2 & s2 & Hp2 & Hb2 & _).
  apply only_string_reads_test in Hp2 as ->.
  pose proof (apps_bump_reading "test" Dislikes s1) as H2. rewrite Hb2 in H2. cbn [snd] in H2.
  destruct (bump_counts "test" Infos s2) as (p3 & s3 & Hp3 & Hb3 & Hr3).
  apply only_string_reads_test in Hp3 as ->.
  pose proof (apps_bump_reading "test" Infos s2) as H3. rewrite Hb3 in H3. cbn [snd] in H3.
  assert (∀ g, reading s3 "test" g =
               SNum (Int match g with Likes => a + 1 | Dislikes => b + 1 | Infos => c + 1 end))
    as R3.
  { intros g. rewrite H3, H2, H1, !H0.
    destruct g; repeat case_decide; destruct_and?; try done;
      rewrite ?H2, ?H1, ?H0, ?Ha, ?Hb, ?Hc; 
      repeat case_decide; destruct_and?; rewrite ?plus1_small by lia; try done; exfalso; naive_solver. }
  assert (∀ g, reading s2 "test" g =
               SNum (Int match g with Likes => a + 1 | Dislikes => b + 1 | Infos => c end))
    as R2.
  { intros g. rewrite H2, H1, !H0.
    destruct g; repeat case_decide; destruct_and?; try done;
      rewrite ?H1, ?H0, ?Ha, ?Hb, ?Hc; 
      repeat case_decide; destruct_and?; rewrite ?plus1_small by lia; try done; exfalso; naive_solver. }
  assert (∀ g, reading s1 "test" g =
               SNum (Int match g with Likes => a + 1 | Dislikes => b | Infos => c end))
    as R1.
  { intros g. rewrite H1, !H0.
    destruct g; repeat case_decide; destruct_and?; try done;
      rewrite ?H0, ?Ha, ?Hb, ?Hc; 
      repeat case_decide; destruct_and?; rewrite ?plus1_small by lia; try done; exfalso; naive_solver. }
  eexists _, s3. split; [|split; [|split]].
  - unfold Apps.testCounter, bind.
    rewrite Hr0. fold s0. change (Prim (SStr "likes")) with (field_of Likes).
    change (Prim (SStr "dislikes")) with (field_of Dislikes).
    change (Prim (SStr "infos")) with (field_of Infos).
    rewrite Hb1, Hb2, Hb3, Hr3. reflexivity.
  - reflexivity.
  - cbn. unfold counts_of. by rewrite !R3, !R2, !R1, Ha, Hb, Hc.
  - intros s g Hne.
    rewrite H3, decide_False by (by intros [? _]).
    rewrite H2, decide_False by (by intros [? _]).
    rewrite H1, decide_False by (by intros [? _]).
    apply H0.
Qed.

Lemma X14_testCounter_witness :
  reading None "test" Likes = SNum (Int 0) ∧
  reading None "test" Dislikes = SNum (Int 0) ∧
  reading None "test" Infos = SNum (Int 0) ∧
  ∃ l ss1,
    Apps.testCounter None = (Ok l, ss1) ∧
    length l = 13%nat ∧
    logged_counts l =
      [counts_of (SStr "test") 0 0 0;
       counts_of (SStr "test") (0 + 1) 0 0;
       counts_of (SStr "test") (0 + 1) (0 + 1) 0;
       counts_of (SStr "test") (0 + 1) (0 + 1) (0 + 1);
       counts_of (SStr "test") (0 + 1) (0 + 1) (0 + 1)] ∧
    ∀ s g, s ≠ "test" → reading ss1 s g = reading None s g.
Proof.
  repeat (split; [reflexivity|]).
  apply (X14_testCounter_logs 0 0 0 None); first [reflexivity|lia].
Defined.

(** X15.  On [apps.js] a request answered with an error payload has changed
    nothing at all, not even created the tab: every GET and every POST
    either returns [{error: ...}] with the spreadsheet exactly as it was, or
    returns counts.  In particular no request reaches the Invalid field
    error of [bump_], which is raised after a row was appended. *)
Theorem X15_error_answers_change_nothing e ss :
  ((∃ msg, Apps.doGet e ss = (Ok (error_response msg), ss)) ∨
   (∃ c ss1, Apps.doGet e ss = (Ok (createJsonResponse (Result c)), ss1))) ∧
  ((∃ msg, Apps.doPost e ss = (Ok (error_response msg), ss)) ∨
   (∃ c ss1, Apps.doPost e ss = (Ok (createJsonResponse (Result c)), ss1))).
Proof.
  split.
  - destruct e as [ev|]; [|left; eexists; apply doGet_undefined].
    destruct (request_action_string ev) as [a Ha].
    destruct (request_slug_string ev) as [s Hs].
    destruct (decide (a = "get")) as [->|Hg].
    { right. rewrite doGet_get by done.
      destruct (apps_readCounts_returns (request_slug ev) ss) as [c Hc].
      exists c, (Some (boot ss)). by apply respond_Ok. }
    destruct (decide (a = "bump")) as [->|Hb].
    + destruct (includes_field (param ev "field")) eqn:Hf.
      * apply includes_field_true in Hf as [f Hf]. right.
        rewrite (doGet_bump ev f), Hs by done.
        destruct (apps_bump_returns s f ss) as (c & ss1 & Hbump).
        exists c, ss1. by apply respond_Ok.
      * left. eexists. by apply doGet_bump_invalid.
    + left. eexists. by apply (doGet_unknown ev a).
  - destruct e as [ev|]; [|left; eexists; apply doPost_undefined].
    assert (apps_payload ev = PNull ∨ apps_payload ev ≠ PNull) as [Hp|Hp]
      by (destruct (apps_payload ev); [by left|by right|by right]).
    { left. eexists. by apply doPost_null. }
    destruct (includes_field (post_field ev)) eqn:Hf;
      [|left; eexists; by apply doPost_invalid].
    apply includes_field_true in Hf as [f Hf]. right.
    rewrite doPost_unfold. unfold try_catch, bind, lift.
    rewrite !read_prop_object by done. fold (post_field ev) (post_slug ev).
    rewrite invalid_field_test, Hf, includes_field_of. cbn [negb].
    destruct (post_slug ev) as [b|n|s] eqn:Hs.
    + destruct (bump_not_string (SBool b) f ss I) as [_ Hb].
      rewrite (respond_Ok _ _ _ _ Hb). eauto.
    + destruct (bump_not_string (SNum n) f ss I) as [_ Hb].
      rewrite (respond_Ok _ _ _ _ Hb). eauto.
    + destruct (apps_bump_returns s f ss) as (c & ss1 & Hb).
      rewrite (respond_Ok _ _ _ _ Hb). eauto.
Qed.

(** ** [part_000] *)

Lemma includes_field_false field :
  (∀ f, field ≠ field_of f) → includes_field field = false.
Proof.
  intros H. destruct (includes_field field) eqn:E; [|done].
  apply includes_field_true in E as [f ->]. by destruct (H f).
Qed.

(** X16.  [bump_] of [part_000], called with anything but one of the three
    field names (another text, a number, a boolean, [null], [undefined]),
    throws [Error('Invalid field')] before it reads a binding or touches the
    spreadsheet, which stays exactly as it was; so does a POST whose payload
    carries such a field, the exception leaving [doPost]. *)
Theorem X16_part000_bump_checks_field_first env slug field ss :
  (∀ f, field ≠ field_of f) →
  Part000.bump_ env slug field ss = (Throw (Error "Invalid field"), ss) ∧
  ∀ e, part000_payload e ≠ PNull →
       prop (part000_payload e) "field" = field →
       Part000.doPost env e ss = (Throw (Error "Invalid field"), ss).
Proof.
  intros H. apply includes_field_false in H. split.
  - by apply part000_bump_invalid_field.
  - intros e Hp Hf. rewrite part000_doPost_eq by done. rewrite Hf.
    unfold respond, bind. by rewrite part000_bump_invalid_field.
Qed.

Lemma X16_part000_bump_checks_field_witness :
  Part000.bump_ Part000.globals (SStr "home") Undefined None =
    (Throw (Error "Invalid field"), None) ∧
  Part000.doPost Part000.globals (Some bare_request) None =
    (Throw (Error "Invalid field"), None).
Proof.
  assert (∀ f, Undefined ≠ field_of f) as H by (intros f; discriminate).
  destruct (X16_part000_bump_checks_field_first Part000.globals (SStr "home") Undefined None H)
    as [Hb Hp].
  split; [exact Hb|]. apply Hp; [discriminate|reflexivity].
Defined.

(** X17.  With the bindings the file declares, no entry point of [part_000]
    ever returns a response, and none ever changes the spreadsheet: [doGet]
    and [doPost] throw on every request and every store (the reference error
    of [getSheet_], the Invalid field error of [bump_], or a type error on a
    [null] payload), and nothing catches the exception. *)
Theorem X17_part000_never_answers e ss :
  Part000.doGet Part000.globals e ss = (Throw metrics_undeclared, ss) ∧
  ∃ x, Part000.doPost Part000.globals e ss = (Throw x, ss).
Proof.
  split.
  - rewrite part000_doGet_eq. unfold respond, bind.
    by rewrite part000_readCounts_throws by apply part000_metrics_undeclared.
  - assert (part000_payload e = PNull ∨ part000_payload e ≠ PNull) as [Hp|Hp]
      by (destruct (part000_payload e); [by left|by right|by right]).
    { unfold Part000.doPost. fold (part000_payload e). rewrite Hp. eexists. reflexivity. }
    rewrite part000_doPost_eq by done. unfold respond, bind.
    destruct (includes_field (prop (part000_payload e) "field")) eqn:Hf.
    + apply includes_field_true in Hf as [f ->].
      rewrite part000_bump_valid_throws by apply part000_metrics_undeclared. eauto.
    + rewrite part000_bump_invalid_field by done. eauto.
Qed.
